(** * Expense reconciliation: CapitalOne statement against Jobber expenses

    A shallow embedding of [ExpenseReconciler] from
    [streamlit_app_english.py] and the properties of its matching engine.

    Modelling conventions.
    - A DataFrame handed to the engine is the list of its rows in
      [iterrows] order; a row carries its index label [idx].
    - A pandas [Timestamp] is its number of nanoseconds since the epoch
      (an integer); [Timedelta.days] is the floor of the difference
      divided by the nanoseconds of a day.
    - Amounts, tolerances and scores are Python floats in the source; they
      are modelled as exact rationals [Q], compared up to [==].  Rounding
      of binary floating point is not part of the model.
    - A Python [str] is modelled as the [string] of its UTF-8 bytes.
      Equality and the substring test [in] give the same answer on code
      points and on their encoding, and are computed.  [str.lower] and
      [str.strip] follow the Unicode character database; they are not
      computed but taken as the two operations of [StrMethods], of which
      only the action on ASCII text is known.
    - A Python exception is the result [None] of an [option].  The only
      exception the engine can raise is [ZeroDivisionError]; in the
      loaders a conversion of pandas may raise, and the handler of the
      loader turns that into the return value [None].
    - Python sets are [gset nat]; the [card_to_person] dict is a
      [gmap string string]. *)

From Stdlib Require Import ZArith QArith Qabs Qminmax Lqa Ascii String DecimalString.
From Stdlib Require DecimalPos.
From stdpp Require Import gmap strings list sorting.

Open Scope string_scope.
Open Scope Z_scope.

(** ** String operations that are computed *)

Module PyStr.

(** [c.isascii()]: the code is below 128. *)
Definition ascii_char (c : ascii) : bool := Nat.ltb (nat_of_ascii c) 128.

(** [s.isascii()]. *)
Fixpoint isascii (s : string) : bool :=
  match s with
  | EmptyString => true
  | String c s' => ascii_char c && isascii s'
  end.

(** [c.lower()] for an ASCII character [c]. *)
Definition ascii_lower_char (c : ascii) : ascii :=
  let n := nat_of_ascii c in
  if (Nat.leb 65 n && Nat.leb n 90)%bool then ascii_of_nat (n + 32) else c.

(** [s.lower()] for ASCII text [s]. *)
Fixpoint ascii_lower (s : string) : string :=
  match s with
  | EmptyString => EmptyString
  | String c s' => String (ascii_lower_char c) (ascii_lower s')
  end.

(** [c.isspace()] for an ASCII character [c]: tab, line feed, vertical
    tab, form feed, carriage return, the four separators 28..31 and
    space. *)
Definition ascii_space (c : ascii) : bool :=
  let n := nat_of_ascii c in
  ((Nat.leb 9 n && Nat.leb n 13) || (Nat.leb 28 n && Nat.leb n 32))%bool.

(** [s.lstrip()] for ASCII text [s]. *)
Fixpoint ascii_lstrip (s : string) : string :=
  match s with
  | EmptyString => EmptyString
  | String c s' => if ascii_space c then ascii_lstrip s' else s
  end.

(** The characters of [s] in reverse order. *)
Fixpoint rev_onto (s acc : string) : string :=
  match s with
  | EmptyString => acc
  | String c s' => rev_onto s' (String c acc)
  end.

Definition reverse (s : string) : string := rev_onto s EmptyString.

(** [s.strip()] for ASCII text [s]: leading and trailing whitespace
    removed. *)
Definition ascii_strip (s : string) : string :=
  reverse (ascii_lstrip (reverse (ascii_lstrip s))).

(** [h.startswith(n)]. *)
Fixpoint startswith (n h : string) : bool :=
  match n, h with
  | EmptyString, _ => true
  | String _ _, EmptyString => false
  | String a n', String b h' => if Ascii.eqb a b then startswith n' h' else false
  end.

(** [n in h]: [n] occurs in [h] as a contiguous substring. *)
Fixpoint contains (n h : string) : bool :=
  if startswith n h then true
  else match h with
       | EmptyString => false
       | String _ h' => contains n h'
       end.

(** [str(z)] for an integer [z]. *)
Definition str_of_int (z : Z) : string := NilZero.string_of_int (Z.to_int z).

End PyStr.

(** ** [str.lower] and [str.strip]

    Python lowers and strips by the Unicode character database: "JOSÉ"
    lowers to "josé", and a no-break space at an end is stripped.  The
    two methods are the operations [str_lower] and [str_strip] of this
    class.  What is known of them is their action on ASCII text: on text
    that is ASCII throughout they are [PyStr.ascii_lower] and
    [PyStr.ascii_strip]; an ASCII prefix is lowered character by character
    whatever follows it; and stripping removes nothing of an ASCII prefix
    that has no whitespace at either end. *)
Class StrMethods := {
  str_lower : string → string;
  str_strip : string → string;
  str_lower_ascii s :
    PyStr.isascii s = true → str_lower s = PyStr.ascii_lower s;
  str_strip_ascii s :
    PyStr.isascii s = true → str_strip s = PyStr.ascii_strip s;
  str_lower_ascii_prefix a t :
    PyStr.isascii a = true →
    ∃ u, str_lower (a +:+ t) = PyStr.ascii_lower a +:+ u;
  str_strip_ascii_prefix a t :
    PyStr.isascii a = true → a ≠ EmptyString → PyStr.ascii_strip a = a →
    ∃ u, str_strip (a +:+ t) = a +:+ u
}.

(** ** Data model *)

(** One row of a normalized ledger frame.  [idx] is the index label
    [iterrows] yields, [date] the timestamp in nanoseconds, [person] the
    ['person'] column ("N/A" when the ledger has no person column) and
    [card_no] the ['card_no'] column, absent from Jobber frames. *)
Record row := Row {
  idx : nat;
  date : Z;
  amount : Q;
  description : string;
  person : string;
  card_no : option string
}.

(** The dict appended to [matches] for one accepted pair of rows. *)
Record match_rec := MatchRec {
  cap_idx : nat;
  job_idx : nat;
  cap_date : Z;
  job_date : Z;
  cap_amount : Q;
  job_amount : Q;
  cap_desc : string;
  job_desc : string;
  cap_person : string;
  job_person : string;
  cap_card_no : string;
  date_diff : Z;
  amount_diff : Q;
  person_match : bool;
  person_match_quality : Q;
  match_quality : Q
}.

(** The fields [__init__] sets. *)
Record ExpenseReconciler := Reconciler {
  tolerance_amount : Q;
  tolerance_days : Z;
  check_person : bool;
  card_to_person : gmap string string
}.

(** The table [__init__] installs. *)
Definition default_card_to_person : gmap string string :=
  <["9265" := "Aaron Davidson"]>
  (<["4298" := "Alex Masuda"]>
  (<["1725" := "Jericho Taylor-Daves"]>
  (<["3253" := "Jerry Morales"]>
  (<["2984" := "Antonio"]> ∅)))).

(** [ExpenseReconciler(tolerance_amount, tolerance_days, check_person)]. *)
Definition init (tol_amount : Q) (tol_days : Z) (chk : bool) : ExpenseReconciler :=
  {| tolerance_amount := tol_amount;
     tolerance_days := tol_days;
     check_person := chk;
     card_to_person := default_card_to_person |}.

(** ** The assignment step as the specification words it *)

Module Reference.

(** The candidates of [l] whose quality is [v], in the order of [l]. *)
Definition of_quality (v : Q) (l : list match_rec) : list match_rec :=
  List.filter (λ m, Qeq_bool (match_quality m) v) l.

(** [s] is [l] stable-sorted by quality, descending: the same
    candidates, no candidate in front of one of greater quality, and
    candidates of equal quality in the order they have in [l]. *)
Record stable_sorted_desc (l s : list match_rec) : Prop := {
  sorted_perm : s ≡ₚ l;
  sorted_desc :
    StronglySorted (λ a b, (match_quality b <= match_quality a)%Q) s;
  sorted_stable : ∀ v, of_quality v s = of_quality v l
}.

(** An id of [m] has been consumed by a candidate accepted earlier. *)
Definition consumed (accepted : list match_rec) (m : match_rec) : Prop :=
  ∃ a, a ∈ accepted ∧ (cap_idx a = cap_idx m ∨ job_idx a = job_idx m).

(** One traversal of [s]: [traverse s accepted final] when, starting
    with [accepted], going through [s] once and accepting exactly the
    candidates not consumed ends with the sequence [final]. *)
Inductive traverse : list match_rec → list match_rec → list match_rec → Prop :=
| traverse_end accepted :
    traverse [] accepted accepted
| traverse_accept m s accepted final :
    ¬ consumed accepted m →
    traverse s (accepted ++ [m]) final →
    traverse (m :: s) accepted final
| traverse_skip m s accepted final :
    consumed accepted m →
    traverse s accepted final →
    traverse (m :: s) accepted final.

(** The identity comparison of two identities as the specification
    words it: equal without regard to case, else one contained in the
    other without regard to case, else a mismatch. *)
Definition identity_score `{StrMethods} (source target : string) : Q :=
  if String.eqb (str_lower source) (str_lower target) then 1%Q
  else if PyStr.contains (str_lower source) (str_lower target)
          || PyStr.contains (str_lower target) (str_lower source) then 0.8%Q
  else 0%Q.

(** [resolve(candidates) → (matches, usedSourceIds, usedTargetIds)]. *)
Definition resolve (cands : list match_rec)
    (r : list match_rec * gset nat * gset nat) : Prop :=
  ∃ s, stable_sorted_desc cands s
       ∧ traverse s [] r.1.1
       ∧ r.1.2 = list_to_set (cap_idx <$> r.1.1)
       ∧ r.2 = list_to_set (job_idx <$> r.1.1).

End Reference.

(** ** Column detection of the two loaders *)

Module CapitalOne.

(** [date_col], [amount_col], [desc_col], [card_col]. *)
Record columns := Columns {
  date_col : option string;
  amount_col : option string;
  desc_col : option string;
  card_col : option string
}.

Section Scan.
Context `{py : StrMethods}.

(** The body of [for col in df.columns]. *)
Definition scan (found : columns) (col : string) : columns :=
  let col_lower := str_lower col in
  if PyStr.contains "transaction" col_lower && PyStr.contains "date" col_lower then
    {| date_col := Some col; amount_col := amount_col found;
       desc_col := desc_col found; card_col := card_col found |}
  else if PyStr.contains "debit" col_lower
          || (PyStr.contains "amount" col_lower
              && negb (PyStr.contains "debit" col_lower)) then
    {| date_col := date_col found; amount_col := Some col;
       desc_col := desc_col found; card_col := card_col found |}
  else if PyStr.contains "description" col_lower then
    {| date_col := date_col found; amount_col := amount_col found;
       desc_col := Some col; card_col := card_col found |}
  else if PyStr.contains "card" col_lower && PyStr.contains "no" col_lower then
    {| date_col := date_col found; amount_col := amount_col found;
       desc_col := desc_col found; card_col := Some col |}
  else found.

Definition find_columns (df_columns : list string) : columns :=
  foldl scan (Columns None None None None) df_columns.

(** The branch of the loop body a column takes. *)
Definition takes_date (col : string) : bool :=
  PyStr.contains "transaction" (str_lower col)
  && PyStr.contains "date" (str_lower col).

Definition takes_amount (col : string) : bool :=
  negb (takes_date col)
  && (PyStr.contains "debit" (str_lower col)
      || PyStr.contains "amount" (str_lower col)).

Definition takes_desc (col : string) : bool :=
  negb (takes_date col) && negb (takes_amount col)
  && PyStr.contains "description" (str_lower col).

Definition takes_card (col : string) : bool :=
  negb (takes_date col) && negb (takes_amount col) && negb (takes_desc col)
  && PyStr.contains "card" (str_lower col)
  && PyStr.contains "no" (str_lower col).

End Scan.

End CapitalOne.

Module Jobber.

(** [date_col], [amount_col], [item_col], [entered_by_col]. *)
Record columns := Columns {
  date_col : option string;
  amount_col : option string;
  item_col : option string;
  entered_by_col : option string
}.

Section Scan.
Context `{py : StrMethods}.

(** The body of [for col in df.columns]. *)
Definition scan (found : columns) (col : string) : columns :=
  let col_lower := str_lower col in
  if PyStr.contains "date" col_lower && negb (PyStr.contains "transaction" col_lower) then
    {| date_col := Some col; amount_col := amount_col found;
       item_col := item_col found; entered_by_col := entered_by_col found |}
  else if PyStr.contains "total" col_lower && PyStr.contains "$" col_lower then
    {| date_col := date_col found; amount_col := Some col;
       item_col := item_col found; entered_by_col := entered_by_col found |}
  else if PyStr.contains "item" col_lower && PyStr.contains "name" col_lower then
    {| date_col := date_col found; amount_col := amount_col found;
       item_col := Some col; entered_by_col := entered_by_col found |}
  else if PyStr.contains "entered" col_lower && PyStr.contains "by" col_lower then
    {| date_col := date_col found; amount_col := amount_col found;
       item_col := item_col found; entered_by_col := Some col |}
  else found.

Definition find_columns (df_columns : list string) : columns :=
  foldl scan (Columns None None None None) df_columns.

(** The branch of the loop body a column takes. *)
Definition takes_date (col : string) : bool :=
  PyStr.contains "date" (str_lower col)
  && negb (PyStr.contains "transaction" (str_lower col)).

Definition takes_amount (col : string) : bool :=
  negb (takes_date col)
  && PyStr.contains "total" (str_lower col)
  && PyStr.contains "$" (str_lower col).

Definition takes_item (col : string) : bool :=
  negb (takes_date col) && negb (takes_amount col)
  && PyStr.contains "item" (str_lower col)
  && PyStr.contains "name" (str_lower col).

Definition takes_entered_by (col : string) : bool :=
  negb (takes_date col) && negb (takes_amount col) && negb (takes_item col)
  && PyStr.contains "entered" (str_lower col)
  && PyStr.contains "by" (str_lower col).

End Scan.

End Jobber.

(** ** The engine

    From here on [str_lower] and [str_strip] are Python's own methods,
    whatever they do to text that is not ASCII. *)

Section Engine.
Context `{py : StrMethods}.

(** ** Identity resolver: [get_person_name] in [load_capitalone_data] *)

(** A cell of the card column as [get_person_name] receives it: missing
    ([pd.isna]), numeric (an [int] or finite [float], given by its value),
    or any other object, given by its [str]. *)
Inductive card_cell :=
| CardNA
| CardNum (v : Q)
| CardStr (s : string).

(** [int(x)] of a float: truncation toward zero. *)
Definition int_of_float (v : Q) : Z := Z.quot (Qnum v) (Zpos (Qden v)).

(** [card_str], for a cell that is not missing. *)
Definition card_str (c : card_cell) : string :=
  match c with
  | CardNA => "nan"
  | CardNum v => PyStr.str_of_int (int_of_float v)
  | CardStr s => s
  end.

Definition get_person_name (self : ExpenseReconciler) (card_no : card_cell) : string :=
  match card_no with
  | CardNA => "Unknown"
  | _ =>
      let card_str := card_str card_no in
      default ("Unknown Card " +:+ card_str) (card_to_person self !! card_str)
  end.

(** ** Scoring: [_calculate_match_quality] *)

Definition ns_per_day : Z := 86400000000000.

(** [(a - b).days] for two timestamps. *)
Definition timedelta_days (a b : Z) : Z := (a - b) / ns_per_day.

(** [max(0, x)]: [x] when [x > 0], else [0]. *)
Definition max0 (x : Q) : Q :=
  match (0 ?= x)%Q with
  | Lt => x
  | _ => 0%Q
  end.

(** [a / b] on numbers: [ZeroDivisionError] when [b] is zero. *)
Definition py_div (a b : Q) : option Q :=
  if Qeq_bool b 0 then None else Some (a / b)%Q.

Definition _calculate_match_quality (self : ExpenseReconciler)
    (date_diff : Z) (amount_diff : Q) (person_match_quality : Q) : option Q :=
  d ← py_div (inject_Z (tolerance_days self - date_diff)) (inject_Z (tolerance_days self));
  let date_score := max0 d in
  a ← py_div (tolerance_amount self - amount_diff)%Q (tolerance_amount self);
  let amount_score := max0 a in
  if check_person self then
    Some (date_score * 0.2 + amount_score * 0.4 + person_match_quality * 0.4)%Q
  else
    Some (date_score * 0.3 + amount_score * 0.7)%Q.

(** ** Candidate generation: the nested loops of [find_matches] *)

(** The condition guarding the person comparison. *)
Definition person_compared (self : ExpenseReconciler) (cap_row job_row : row) : bool :=
  check_person self
  && negb (String.eqb (person cap_row) "N/A")
  && negb (String.eqb (person job_row) "N/A").

(** The three-way comparison of two names: the pair
    [(person_match, person_match_quality)]. *)
Definition compare_persons (cap job : string) : bool * Q :=
  let cap_person := str_strip cap in
  let job_person := str_strip job in
  if String.eqb (str_lower cap_person) (str_lower job_person) then
    (true, 1%Q)
  else if PyStr.contains (str_lower cap_person) (str_lower job_person)
          || PyStr.contains (str_lower job_person) (str_lower cap_person) then
    (true, 0.8%Q)
  else
    (false, 0%Q).

(** [person_match] and [person_match_quality] after the person block. *)
Definition person_check (self : ExpenseReconciler) (cap_row job_row : row) : bool * Q :=
  if person_compared self cap_row job_row then
    compare_persons (person cap_row) (person job_row)
  else
    (true, 1%Q).

(** The body of the inner loop for one pair of rows: the dicts it
    appends to [matches] (none or one), or the exception it raises. *)
Definition match_pair (self : ExpenseReconciler) (cap_row job_row : row)
    : option (list match_rec) :=
  let date_diff := Z.abs (timedelta_days (date cap_row) (date job_row)) in
  let amount_diff := Qabs (amount cap_row - amount job_row) in
  if (date_diff <=? tolerance_days self)%Z && Qle_bool amount_diff (tolerance_amount self) then
    let '(person_match, person_match_quality) := person_check self cap_row job_row in
    if person_match || negb (check_person self) then
      match_quality ← _calculate_match_quality self date_diff amount_diff person_match_quality;
      Some [ {| cap_idx := idx cap_row;
                job_idx := idx job_row;
                cap_date := date cap_row;
                job_date := date job_row;
                cap_amount := amount cap_row;
                job_amount := amount job_row;
                cap_desc := description cap_row;
                job_desc := description job_row;
                cap_person := person cap_row;
                job_person := person job_row;
                cap_card_no := default "N/A" (card_no cap_row);
                date_diff := date_diff;
                amount_diff := amount_diff;
                person_match := person_match;
                person_match_quality := person_match_quality;
                match_quality := match_quality |} ]
    else Some []
  else Some [].

(** [for job_idx, job_row in jobber_df.iterrows()], threading [matches]. *)
Fixpoint inner_loop (self : ExpenseReconciler) (cap_row : row)
    (jobber_df : list row) (matches : list match_rec) : option (list match_rec) :=
  match jobber_df with
  | [] => Some matches
  | job_row :: rest =>
      new ← match_pair self cap_row job_row;
      inner_loop self cap_row rest (matches ++ new)
  end.

(** [for cap_idx, cap_row in capitalone_df.iterrows()]. *)
Fixpoint outer_loop (self : ExpenseReconciler) (capitalone_df jobber_df : list row)
    (matches : list match_rec) : option (list match_rec) :=
  match capitalone_df with
  | [] => Some matches
  | cap_row :: rest =>
      matches' ← inner_loop self cap_row jobber_df matches;
      outer_loop self rest jobber_df matches'
  end.

(** The list [matches] when the loops end. *)
Definition candidates (self : ExpenseReconciler) (capitalone_df jobber_df : list row)
    : option (list match_rec) :=
  outer_loop self capitalone_df jobber_df [].

(** ** Assignment: the sort and the duplicate-removal loop *)

(** [a] sorts strictly after [b] under
    [key=lambda x: x['match_quality'], reverse=True]. *)
Definition quality_lt (a b : match_rec) : bool :=
  match (match_quality a ?= match_quality b)%Q with
  | Lt => true
  | _ => false
  end.

(** [list.sort] is stable, also with [reverse=True]: an element is placed
    behind the elements of strictly greater key and in front of every
    later element whose key is not greater. *)
Fixpoint insert_desc (x : match_rec) (l : list match_rec) : list match_rec :=
  match l with
  | [] => [x]
  | y :: l' => if quality_lt x y then y :: insert_desc x l' else x :: l
  end.

(** [matches.sort(key=lambda x: x['match_quality'], reverse=True)]. *)
Definition sort_desc (matches : list match_rec) : list match_rec :=
  foldr insert_desc [] matches.

(** [for match in matches], threading the two sets and [final_matches]. *)
Fixpoint dedup_loop (matches : list match_rec) (used_cap_idx used_job_idx : gset nat)
    (final_matches : list match_rec) : list match_rec * gset nat * gset nat :=
  match matches with
  | [] => (final_matches, used_cap_idx, used_job_idx)
  | m :: rest =>
      if bool_decide (cap_idx m ∉ used_cap_idx) && bool_decide (job_idx m ∉ used_job_idx) then
        dedup_loop rest ({[cap_idx m]} ∪ used_cap_idx) ({[job_idx m]} ∪ used_job_idx)
                   (final_matches ++ [m])
      else
        dedup_loop rest used_cap_idx used_job_idx final_matches
  end.

(** The part of [find_matches] after the loops: sort, then remove
    duplicates starting from empty sets and an empty list. *)
Definition assign (matches : list match_rec) : list match_rec * gset nat * gset nat :=
  dedup_loop (sort_desc matches) ∅ ∅ [].

(** [find_matches]: [(final_matches, used_cap_idx, used_job_idx)], or the
    exception raised while scoring. *)
Definition find_matches (self : ExpenseReconciler) (capitalone_df jobber_df : list row)
    : option (list match_rec * gset nat * gset nat) :=
  matches ← candidates self capitalone_df jobber_df;
  Some (assign matches).

(** ** Classification: [generate_report_df] *)

(** One row of the report, by its ['Status'] and the record it renders. *)
Inductive report_row :=
| MATCH (m : match_rec)
| MISSING_IN_JOBBER (r : row)
| MISSING_IN_CAPITALONE (r : row).

Definition generate_report_df (capitalone_df jobber_df : list row)
    (matches : list match_rec) (used_cap_idx used_job_idx : gset nat) : list report_row :=
  (MATCH <$> matches)
  ++ (MISSING_IN_JOBBER <$> filter (λ r, idx r ∉ used_cap_idx) capitalone_df)
  ++ (MISSING_IN_CAPITALONE <$> filter (λ r, idx r ∉ used_job_idx) jobber_df).

(** The ids a report classifies, by status. *)
Definition matched_source (report : list report_row) : list nat :=
  omap (λ e, match e with MATCH m => Some (cap_idx m) | _ => None end) report.

Definition matched_target (report : list report_row) : list nat :=
  omap (λ e, match e with MATCH m => Some (job_idx m) | _ => None end) report.

Definition unmatched_source (report : list report_row) : list nat :=
  omap (λ e, match e with MISSING_IN_JOBBER r => Some (idx r) | _ => None end) report.

Definition unmatched_target (report : list report_row) : list nat :=
  omap (λ e, match e with MISSING_IN_CAPITALONE r => Some (idx r) | _ => None end) report.

Definition matches_of (report : list report_row) : list match_rec :=
  omap (λ e, match e with MATCH m => Some m | _ => None end) report.

(** The whole run: [find_matches], then [generate_report_df] on its result. *)
Definition reconcile (self : ExpenseReconciler) (capitalone_df jobber_df : list row)
    : option (list report_row) :=
  '(final_matches, used_cap_idx, used_job_idx) ← find_matches self capitalone_df jobber_df;
  Some (generate_report_df capitalone_df jobber_df final_matches used_cap_idx used_job_idx).

(** ** Vocabulary of the statements *)

(** What a loop appends in all, without the accumulator: the lists
    [f x] for [x] in [l], concatenated, unless some [f x] raises. *)
Fixpoint collect {A B : Type} (f : A → option (list B)) (l : list A) : option (list B) :=
  match l with
  | [] => Some []
  | x :: l' => a ← f x; b ← collect f l'; Some (a ++ b)%list
  end.

(** [dateScore] and [amountScore] of the scoring formula. *)
Definition date_score (self : ExpenseReconciler) (date_diff : Z) : Q :=
  max0 (inject_Z (tolerance_days self - date_diff) / inject_Z (tolerance_days self)).

Definition amount_score (self : ExpenseReconciler) (amount_diff : Q) : Q :=
  max0 ((tolerance_amount self - amount_diff) / tolerance_amount self).

(** The weighted sum [_calculate_match_quality] returns. *)
Definition weighted (self : ExpenseReconciler) (date_diff : Z) (amount_diff pmq : Q) : Q :=
  if check_person self then
    (date_score self date_diff * 0.2 + amount_score self amount_diff * 0.4 + pmq * 0.4)%Q
  else
    (date_score self date_diff * 0.3 + amount_score self amount_diff * 0.7)%Q.

(** The deltas of a pair of rows, as the loop body computes them. *)
Definition row_date_diff (cap_row job_row : row) : Z :=
  Z.abs (timedelta_days (date cap_row) (date job_row)).

Definition row_amount_diff (cap_row job_row : row) : Q :=
  Qabs (amount cap_row - amount job_row).

(** The guard of the loop body. *)
Definition within_tolerance (self : ExpenseReconciler) (cap_row job_row : row) : Prop :=
  row_date_diff cap_row job_row ≤ tolerance_days self
  ∧ (row_amount_diff cap_row job_row <= tolerance_amount self)%Q.

(** [m] records the pair [(cap_row, job_row)] and its deltas. *)
Definition records_pair (m : match_rec) (cap_row job_row : row) : Prop :=
  cap_idx m = idx cap_row ∧ job_idx m = idx job_row
  ∧ cap_person m = person cap_row ∧ job_person m = person job_row
  ∧ date_diff m = row_date_diff cap_row job_row
  ∧ amount_diff m = row_amount_diff cap_row job_row.

(** [m] was appended for some pair of rows of the two frames. *)
Definition generated (self : ExpenseReconciler) (capitalone_df jobber_df : list row)
    (m : match_rec) : Prop :=
  ∃ cap_row job_row,
    cap_row ∈ capitalone_df ∧ job_row ∈ jobber_df
    ∧ match_pair self cap_row job_row = Some [m].

(** [m] lies within the tolerances of the run, for the rows it pairs. *)
Definition contained (self : ExpenseReconciler) (capitalone_df jobber_df : list row)
    (m : match_rec) : Prop :=
  ∃ c j, c ∈ capitalone_df ∧ j ∈ jobber_df ∧ records_pair m c j
         ∧ date_diff m ≤ tolerance_days self
         ∧ (amount_diff m <= tolerance_amount self)%Q.

(** Both identities are applicable and their comparison gives [0.0]. *)
Definition confirmed_different (cap job : string) : Prop :=
  cap ≠ "N/A" ∧ job ≠ "N/A" ∧ (compare_persons cap job).2 = 0%Q.

(** The rows of a frame come with ascending index labels, as the
    loaders leave them. *)
Definition ascending (rows : list row) : Prop :=
  StronglySorted (λ r r', (idx r < idx r')%nat) rows.

(** Source id ascending, then target id ascending. *)
Definition id_order (a b : match_rec) : Prop :=
  (cap_idx a < cap_idx b)%nat
  ∨ (cap_idx a = cap_idx b ∧ (job_idx a < job_idx b)%nat).

(** [n] occurs in [h]: [h] is [pre + n + post]. *)
Definition substring (n h : string) : Prop :=
  ∃ pre post, h = pre +:+ n +:+ post.

(** The order the sort leaves two neighbours in. *)
Abbreviation quality_ge := (λ a b : match_rec, (match_quality b <= match_quality a)%Q).

(** The sets of the loop, as functions of the matches accepted so far. *)
Definition cap_ids (l : list match_rec) : gset nat := list_to_set (cap_idx <$> l).

Definition job_ids (l : list match_rec) : gset nat := list_to_set (job_idx <$> l).

(** A row, a match, a report row and a result of [find_matches] with the
    person fields blanked: the person, and the card number it was
    resolved from. *)
Definition erase_row (r : row) : row :=
  {| idx := idx r; date := date r; amount := amount r;
     description := description r; person := EmptyString; card_no := None |}.

Definition erase_match (m : match_rec) : match_rec :=
  {| cap_idx := cap_idx m; job_idx := job_idx m;
     cap_date := cap_date m; job_date := job_date m;
     cap_amount := cap_amount m; job_amount := job_amount m;
     cap_desc := cap_desc m; job_desc := job_desc m;
     cap_person := EmptyString; job_person := EmptyString;
     cap_card_no := EmptyString;
     date_diff := date_diff m; amount_diff := amount_diff m;
     person_match := person_match m;
     person_match_quality := person_match_quality m;
     match_quality := match_quality m |}.

Definition erase_report_row (e : report_row) : report_row :=
  match e with
  | MATCH m => MATCH (erase_match m)
  | MISSING_IN_JOBBER r => MISSING_IN_JOBBER (erase_row r)
  | MISSING_IN_CAPITALONE r => MISSING_IN_CAPITALONE (erase_row r)
  end.

Definition erase_result (r : list match_rec * gset nat * gset nat)
    : list match_rec * gset nat * gset nat :=
  (erase_match <$> r.1.1, r.1.2, r.2).

(** ** Example frames *)

(** Day [k] at midnight, as a timestamp. *)
Definition day (k : Z) : Z := k * ns_per_day.

(** A CapitalOne row and a Jobber row at midnight of day [d]. *)
Definition cap_row_at (i : nat) (d : Z) (a : Q) (p card : string) : row :=
  {| idx := i; date := day d; amount := a; description := "N/A";
     person := p; card_no := Some card |}.

Definition job_row_at (i : nat) (d : Z) (a : Q) (p : string) : row :=
  {| idx := i; date := day d; amount := a; description := "N/A";
     person := p; card_no := None |}.

(** Two bank rows within tolerance of the one expense row. *)
Definition two_sources : list row :=
  [cap_row_at 0 0 100.50 "Aaron Davidson" "9265";
   cap_row_at 1 1 100 "Jerry Morales" "3253"].

Definition one_target : list row := [job_row_at 0 1 100 "Jerry Morales"].

(** One bank row, and expense rows of the same day and amount. *)
Definition aaron_bank : row := cap_row_at 0 0 100 "Aaron Davidson" "9265".

Definition jerry_expense : row := job_row_at 0 0 100 "Jerry Morales".

Definition aaron_expense : row := job_row_at 0 0 100 "Aaron Davidson".

(** Bank rows without a person, and an expense a day later. *)
Definition anonymous_bank : row := cap_row_at 0 0 100 "N/A" "N/A".

Definition unknown_bank : row := cap_row_at 0 0 100 "Unknown" "nan".

Definition aaron_expense_next_day : row := job_row_at 0 1 101.50 "Aaron".

(** ** The statistics and messages of [main] *)

(** [sum(1 for match in matches if not match['person_match'])]. *)
Definition person_mismatches (matches : list match_rec) : nat :=
  length (filter (λ m, person_match m = false) matches).

(** The four numbers [main] shows after a run: [matched_count],
    [cap_only_count], [job_only_count] and [match_percentage]; the
    percentage divides by [max(len(capitalone_df), len(jobber_df))]. *)
Definition statistics (capitalone_df jobber_df : list row) (matches : list match_rec)
    : option (Z * Z * Z * Q) :=
  let matched_count := Z.of_nat (length matches) in
  let cap_only_count := Z.of_nat (length capitalone_df) - matched_count in
  let job_only_count := Z.of_nat (length jobber_df) - matched_count in
  ratio ← py_div (inject_Z matched_count)
                 (inject_Z (Z.max (Z.of_nat (length capitalone_df))
                                  (Z.of_nat (length jobber_df))));
  Some (matched_count, cap_only_count, job_only_count, (ratio * 100)%Q).

(** The ['Status'], ['Person_Check'] and ['Notes'] columns of a report row. *)
Definition Status (e : report_row) : string :=
  match e with
  | MATCH _ => "MATCH"
  | MISSING_IN_JOBBER _ => "MISSING_IN_JOBBER"
  | MISSING_IN_CAPITALONE _ => "MISSING_IN_CAPITALONE"
  end.

Definition Person_Check (e : report_row) : string :=
  match e with
  | MATCH m => if person_match m then "✅ Match" else "⚠️ Different Person"
  | _ => EmptyString
  end.

Definition Notes (e : report_row) : string :=
  match e with
  | MATCH m =>
      "Found matching transaction. "
      +:+ ("Cap: " +:+ cap_person m +:+ " | Job: " +:+ job_person m)
  | MISSING_IN_JOBBER r =>
      "Transaction by " +:+ person r +:+ " not found in Jobber - may need to be added"
  | MISSING_IN_CAPITALONE r =>
      "Expense by " +:+ person r +:+ " not found in CapitalOne - verify entry"
  end.

(** [color_person_check] of [style_dataframe]. *)
Definition color_person_check (val : string) : string :=
  if String.eqb val "✅ Match" then "background-color: #90EE90; color: #2E7D32"
  else if String.eqb val "⚠️ Different Person" then
    "background-color: #FFF9C4; color: #F57C00"
  else EmptyString.

(** ** Sheets and the two loaders *)

(** A cell of a sheet as [pd.read_excel] delivers it: missing, a finite
    number, text, or a timestamp. *)
Inductive cell :=
| NA
| Num (v : Q)
| Txt (s : string)
| Stamp (t : Z).

(** The frame [pd.read_excel] returns: the column labels in order, and
    the rows in order, each giving the cell under a label.  The index is
    the range index: a row's label is its position. *)
Record sheet := Sheet {
  columns : list string;
  cells : list (string → cell)
}.

(** [pd.isna(c)]. *)
Definition isna (c : cell) : bool :=
  match c with
  | NA => true
  | _ => false
  end.

Section Loaders.

(** The conversions pandas and Python supply, each on a column.  A call
    returns the converted column or raises, which is the result [None]:
    [pd.to_datetime] and [pd.to_numeric] with [errors='coerce'] (a
    [None] inside the column is [NaT] or [NaN]), and the date parsing of
    [load_jobber_data], [parse_date] per cell or [pd.to_datetime].
    [str] is [str] of a cell that is not text, which never reads "N/A". *)
Variable to_datetime : list cell → option (list (option Z)).
Variable to_numeric : list cell → option (list (option Q)).
Variable parse_dates : list cell → option (list (option Z)).
Variable str : cell → string.

(** [str(c)], and [astype(str)] on the cell of a column. *)
Definition cell_str (c : cell) : string :=
  match c with
  | Txt s => s
  | _ => str c
  end.

(** The argument [get_person_name] receives for a cell of the card column. *)
Definition card_of_cell (c : cell) : card_cell :=
  match c with
  | NA => CardNA
  | Num v => CardNum v
  | _ => CardStr (cell_str c)
  end.

(** The rows of a sheet with their index labels. *)
Definition indexed (df : sheet) : list (nat * (string → cell)) :=
  imap (λ i r, (i, r)) (cells df).

(** [df.dropna(subset=[a, b])] before the conversions. *)
Definition dropna_cells (a b : string) (rows : list (nat * (string → cell)))
    : list (nat * (string → cell)) :=
  List.filter (λ r, negb (isna (r.2 a)) && negb (isna (r.2 b))) rows.

(** The rows with the converted columns [dates] and [amounts] in place. *)
Definition with_columns (rows : list (nat * (string → cell)))
    (dates : list (option Z)) (amounts : list (option Q))
    : list (nat * (string → cell) * option Z * option Q) :=
  zip (zip rows dates) amounts.

(** [df.dropna(subset=[date_col, amount_col])] after the conversions. *)
Definition dropna_converted (rows : list (nat * (string → cell) * option Z * option Q))
    : list (nat * (string → cell) * Z * Q) :=
  omap (λ x, d ← x.1.2; a ← x.2; Some (x.1.1, d, a)) rows.

(** [df[df[amount_col] > 0]]. *)
Definition positive_amounts (rows : list (nat * (string → cell) * Z * Q))
    : list (nat * (string → cell) * Z * Q) :=
  List.filter (λ x, negb (Qle_bool x.2 0)) rows.

(** The cleaning steps both loaders share, given the conversion of the
    dates: the cleaned rows, or [None] when a conversion raises. *)
Definition clean (dates_of : list cell → option (list (option Z)))
    (date_col amount_col : string) (df : sheet)
    : option (list (nat * (string → cell) * Z * Q)) :=
  let rows := dropna_cells date_col amount_col (indexed df) in
  dates ← dates_of ((λ r, r.2 date_col) <$> rows);
  amounts ← to_numeric ((λ r, r.2 amount_col) <$> rows);
  Some (positive_amounts (dropna_converted (with_columns rows dates amounts))).

(** [try: body / except Exception as e: ...; return None], for a [body]
    that raises ([None]) or returns, a frame or [None]. *)
Definition try_except {A : Type} (body : option (option A)) : option A :=
  match body with
  | Some returned => returned
  | None => None
  end.

(** [load_capitalone_data], for the frame [df] that the first statement
    of its body, [pd.read_excel(uploaded_file)], returned.  The result
    frame, or [None]: returned by the body when a required column is not
    found, and by the handler when a statement of the body raises. *)
Definition load_capitalone_data (self : ExpenseReconciler) (df : sheet)
    : option (list row) :=
  try_except
    (let found := CapitalOne.find_columns (columns df) in
     match CapitalOne.date_col found, CapitalOne.amount_col found with
     | Some date_col, Some amount_col =>
         match clean to_datetime date_col amount_col df with
         | None => None
         | Some cleaned =>
         Some (Some ((λ x,
                 {| idx := x.1.1.1;
                    date := x.1.2;
                    amount := x.2;
                    description :=
                      match CapitalOne.desc_col found with
                      | Some desc_col => cell_str (x.1.1.2 desc_col)
                      | None => "N/A"
                      end;
                    person :=
                      match CapitalOne.card_col found with
                      | Some card_col =>
                          get_person_name self (card_of_cell (x.1.1.2 card_col))
                      | None => "N/A"
                      end;
                    card_no :=
                      match CapitalOne.card_col found with
                      | Some card_col => Some (cell_str (x.1.1.2 card_col))
                      | None => Some "N/A"
                      end |})
                <$> cleaned))
         end
     | _, _ => Some None
     end).

(** [df[entered_by_col].fillna('Unknown')] on a cell. *)
Definition fillna_unknown (c : cell) : string :=
  match c with
  | NA => "Unknown"
  | _ => cell_str c
  end.

(** [load_jobber_data], for the frame [df] that [pd.read_excel]
    returned: the result frame, or [None] as in [load_capitalone_data]. *)
Definition load_jobber_data (df : sheet) : option (list row) :=
  try_except
    (let found := Jobber.find_columns (columns df) in
     match Jobber.date_col found, Jobber.amount_col found with
     | Some date_col, Some amount_col =>
         match clean parse_dates date_col amount_col df with
         | None => None
         | Some cleaned =>
         Some (Some ((λ x,
                 {| idx := x.1.1.1;
                    date := x.1.2;
                    amount := x.2;
                    description :=
                      match Jobber.item_col found with
                      | Some item_col => cell_str (x.1.1.2 item_col)
                      | None => "N/A"
                      end;
                    person :=
                      match Jobber.entered_by_col found with
                      | Some entered_by_col => fillna_unknown (x.1.1.2 entered_by_col)
                      | None => "N/A"
                      end;
                    card_no := None |})
                <$> cleaned))
         end
     | _, _ => Some None
     end).

(** What the button of [main] computes from two sheets: nothing when a
    loader fails; else the report and the statistics, unless
    [find_matches] or the percentage raises. *)
Inductive outcome :=
| NotLoaded
| Raised
| Completed (report : list report_row) (stats : Z * Z * Z * Q).

Definition run (self : ExpenseReconciler) (capitalone_file jobber_file : sheet)
    : outcome :=
  match load_capitalone_data self capitalone_file, load_jobber_data jobber_file with
  | Some capitalone_df, Some jobber_df =>
      match find_matches self capitalone_df jobber_df with
      | Some (matches, used_cap_idx, used_job_idx) =>
          let report_df :=
            generate_report_df capitalone_df jobber_df matches
                               used_cap_idx used_job_idx in
          match statistics capitalone_df jobber_df matches with
          | Some stats => Completed report_df stats
          | None => Raised
          end
      | None => Raised
      end
  | _, _ => NotLoaded
  end.

End Loaders.

(** ** Example sheets *)

(** A reading of the conversions for the examples: none raises;
    timestamps and numbers pass, every other cell is coerced to missing. *)
Definition plain_datetime (column : list cell) : option (list (option Z)) :=
  Some ((λ c, match c with Stamp t => Some t | _ => None end) <$> column).

Definition plain_numeric (column : list cell) : option (list (option Q)) :=
  Some ((λ c, match c with Num v => Some v | _ => None end) <$> column).

Definition plain_str (c : cell) : string :=
  match c with
  | Num v => PyStr.str_of_int (int_of_float v)
  | _ => "nan"
  end.

(** A sheet row given by the cells it has; every other cell is missing. *)
Fixpoint cells_of (given : list (string * cell)) (label : string) : cell :=
  match given with
  | [] => NA
  | (k, c) :: rest => if String.eqb k label then c else cells_of rest label
  end.

(** A bank statement with a credit row, and an expense sheet with a row
    nobody signed. *)
Definition bank_sheet : sheet :=
  {| columns := ["Transaction Date"; "Posted Date"; "Card No."; "Description";
                 "Debit"; "Credit"];
     cells :=
       [cells_of [("Transaction Date", Stamp (day 0)); ("Card No.", Num 9265);
                  ("Description", Txt "HOME DEPOT"); ("Debit", Num 100)];
        cells_of [("Transaction Date", Stamp (day 1)); ("Card No.", Num 9265);
                  ("Description", Txt "PAYMENT"); ("Credit", Num 500)];
        cells_of [("Transaction Date", Stamp (day 2)); ("Card No.", Num 1234);
                  ("Description", Txt "FUEL"); ("Debit", Num 40)]] |}.

Definition expense_sheet : sheet :=
  {| columns := ["Date"; "Item name"; "Total $"; "Entered by"];
     cells :=
       [cells_of [("Date", Stamp (day 0)); ("Item name", Txt "Lumber");
                  ("Total $", Num 100); ("Entered by", Txt "Aaron")];
        cells_of [("Date", Stamp (day 2)); ("Item name", Txt "Gas");
                  ("Total $", Num 40)]] |}.

(** The same statement without its card column. *)
Definition bank_sheet_no_card : sheet :=
  {| columns := ["Transaction Date"; "Description"; "Debit"];
     cells := cells bank_sheet |}.

(** ** Further vocabulary *)

(** The pair passes the guards in front of the scoring call. *)
Definition reaches_scoring (self : ExpenseReconciler) (c j : row) : Prop :=
  within_tolerance self c j
  ∧ ((person_check self c j).1 = true ∨ check_person self = false).

(** The first character, if any, is not whitespace. *)
Definition no_lead (s : string) : Prop :=
  match s with
  | EmptyString => True
  | String c _ => PyStr.ascii_space c = false
  end.

(** ** The token [get_person_name] looks up *)




(** ** The computed string operations, on examples *)

Example lower_ex : PyStr.ascii_lower "Aaron Davidson" = "aaron davidson".
Proof. reflexivity. Qed.

Example strip_ex : PyStr.ascii_strip "  Aaron Davidson " = "Aaron Davidson".
Proof. reflexivity. Qed.

Example contains_ex :
  PyStr.contains "aaron" "aaron davidson" = true
  /\ PyStr.contains EmptyString "x" = true
  /\ PyStr.contains "jerry" "aaron davidson" = false.
Proof. repeat split; reflexivity. Qed.

Example str_of_int_ex :
  PyStr.str_of_int 9265 = "9265" /\ PyStr.str_of_int 0 = "0"
  /\ PyStr.str_of_int (-7) = "-7".
Proof. repeat split; reflexivity. Qed.

(** ** Strings: case, reversal and stripping *)

Lemma append_cons c s t : String c s +:+ t = String c (s +:+ t).
Proof. reflexivity. Qed.

Lemma append_nil_r s : s +:+ EmptyString = s.
Proof. induction s as [|c s IH]; [done|]. by rewrite append_cons, IH. Qed.

Lemma append_assoc a b c : (a +:+ b) +:+ c = a +:+ (b +:+ c).
Proof. induction a as [|x a IH]; [done|]. by rewrite !append_cons, IH. Qed.

Lemma rev_onto_spec s acc : PyStr.rev_onto s acc = PyStr.reverse s +:+ acc.
Proof.
  unfold PyStr.reverse. revert acc.
  induction s as [|c s IH]; intros acc; [done|]. simpl.
  rewrite (IH (String c acc)), (IH (String c EmptyString)).
  by rewrite append_assoc.
Qed.

Lemma reverse_cons c s :
  PyStr.reverse (String c s) = PyStr.reverse s +:+ String c EmptyString.
Proof. unfold PyStr.reverse at 1. simpl. apply rev_onto_spec. Qed.

Lemma reverse_app a b : PyStr.reverse (a +:+ b) = PyStr.reverse b +:+ PyStr.reverse a.
Proof.
  induction a as [|c a IH].
  - change (EmptyString +:+ b) with b.
    change (PyStr.reverse EmptyString) with EmptyString. by rewrite append_nil_r.
  - by rewrite append_cons, !reverse_cons, IH, append_assoc.
Qed.

Lemma reverse_involutive s : PyStr.reverse (PyStr.reverse s) = s.
Proof.
  induction s as [|c s IH]; [done|].
  by rewrite reverse_cons, reverse_app, IH.
Qed.

Lemma lower_ascii_idem c : PyStr.ascii_lower_char (PyStr.ascii_lower_char c) = PyStr.ascii_lower_char c.
Proof. by destruct c as [[] [] [] [] [] [] [] []]. Qed.

Lemma is_space_lower_ascii c : PyStr.ascii_space (PyStr.ascii_lower_char c) = PyStr.ascii_space c.
Proof. by destruct c as [[] [] [] [] [] [] [] []]. Qed.

Lemma lower_idem s : PyStr.ascii_lower (PyStr.ascii_lower s) = PyStr.ascii_lower s.
Proof.
  induction s as [|c s IH]; [done|]. simpl. by rewrite lower_ascii_idem, IH.
Qed.

Lemma lower_app a b : PyStr.ascii_lower (a +:+ b) = PyStr.ascii_lower a +:+ PyStr.ascii_lower b.
Proof.
  induction a as [|c a IH]; [done|].
  rewrite append_cons. cbn [PyStr.ascii_lower]. by rewrite append_cons, IH.
Qed.

Lemma lstrip_lower s : PyStr.ascii_lstrip (PyStr.ascii_lower s) = PyStr.ascii_lower (PyStr.ascii_lstrip s).
Proof.
  induction s as [|c s IH]; [done|]. simpl. rewrite is_space_lower_ascii.
  by destruct (PyStr.ascii_space c).
Qed.

Lemma reverse_lower s : PyStr.reverse (PyStr.ascii_lower s) = PyStr.ascii_lower (PyStr.reverse s).
Proof.
  induction s as [|c s IH]; [done|]. simpl PyStr.ascii_lower at 1.
  by rewrite !reverse_cons, IH, lower_app.
Qed.

Lemma strip_lower s : PyStr.ascii_strip (PyStr.ascii_lower s) = PyStr.ascii_lower (PyStr.ascii_strip s).
Proof.
  unfold PyStr.ascii_strip.
  by rewrite lstrip_lower, reverse_lower, lstrip_lower, reverse_lower.
Qed.

Lemma lstrip_no_lead s : no_lead (PyStr.ascii_lstrip s).
Proof.
  induction s as [|c s IH]; [done|]. simpl.
  by destruct (PyStr.ascii_space c) eqn:E.
Qed.

Lemma lstrip_id s : no_lead s → PyStr.ascii_lstrip s = s.
Proof. destruct s as [|c s]; [done|]. simpl. by intros ->. Qed.

Lemma lstrip_suffix s : ∃ w, s = w +:+ PyStr.ascii_lstrip s.
Proof.
  induction s as [|c s [w IH]]; [by exists EmptyString|]. simpl.
  destruct (PyStr.ascii_space c).
  - exists (String c w). by rewrite append_cons, <- IH.
  - by exists EmptyString.
Qed.

Lemma no_lead_app_l a b : a ≠ EmptyString → no_lead (a +:+ b) → no_lead a.
Proof. by destruct a. Qed.

Lemma reverse_nil_inv s : PyStr.reverse s = EmptyString → s = EmptyString.
Proof.
  intros H. apply (f_equal PyStr.reverse) in H. by rewrite reverse_involutive in H.
Qed.

(** A stripped string has whitespace at neither end. *)
Lemma strip_no_lead s :
  no_lead (PyStr.ascii_strip s) ∧ no_lead (PyStr.reverse (PyStr.ascii_strip s)).
Proof.
  unfold PyStr.ascii_strip. set (x := PyStr.ascii_lstrip s).
  set (y := PyStr.ascii_lstrip (PyStr.reverse x)).
  rewrite reverse_involutive. split; [|apply lstrip_no_lead].
  destruct (lstrip_suffix (PyStr.reverse x)) as [w Hw]. fold y in Hw.
  apply (f_equal PyStr.reverse) in Hw.
  rewrite reverse_involutive, reverse_app in Hw.
  destruct (decide (PyStr.reverse y = EmptyString)) as [->|Hne]; [done|].
  apply (no_lead_app_l _ (PyStr.reverse w)); [done|].
  rewrite <- Hw. apply lstrip_no_lead.
Qed.

Lemma strip_id s : no_lead s → no_lead (PyStr.reverse s) → PyStr.ascii_strip s = s.
Proof.
  intros H1 H2. unfold PyStr.ascii_strip.
  by rewrite (lstrip_id s), (lstrip_id (PyStr.reverse s)), reverse_involutive.
Qed.

Lemma strip_idem s : PyStr.ascii_strip (PyStr.ascii_strip s) = PyStr.ascii_strip s.
Proof. destruct (strip_no_lead s). by apply strip_id. Qed.

Lemma lstrip_app_keep a c b :
  PyStr.ascii_space c = false →
  ∃ a', PyStr.ascii_lstrip (a +:+ String c b) = a' +:+ String c b.
Proof.
  intros Hc. induction a as [|x a [a' IH]].
  - exists EmptyString. change (EmptyString +:+ String c b) with (String c b).
    simpl. by rewrite Hc.
  - rewrite append_cons. simpl. destruct (PyStr.ascii_space x).
    + by exists a'.
    + by exists (String x a).
Qed.

(** An ASCII prefix is lowered on its own, and a prefix without
    whitespace at either end is kept by stripping, whatever follows. *)
Lemma ascii_lower_prefix a t :
  ∃ u, PyStr.ascii_lower (a +:+ t) = PyStr.ascii_lower a +:+ u.
Proof. exists (PyStr.ascii_lower t). apply lower_app. Qed.

Lemma ascii_strip_prefix a t :
  a ≠ EmptyString → PyStr.ascii_strip a = a →
  ∃ u, PyStr.ascii_strip (a +:+ t) = a +:+ u.
Proof.
  intros Hne Ha. destruct (strip_no_lead a) as [H1 H2]. rewrite Ha in H1, H2.
  unfold PyStr.ascii_strip.
  rewrite (lstrip_id (a +:+ t)) by (by destruct a).
  rewrite reverse_app.
  destruct (PyStr.reverse a) as [|c b] eqn:Hr.
  { by apply reverse_nil_inv in Hr. }
  simpl in H2.
  destruct (lstrip_app_keep (PyStr.reverse t) c b H2) as [a' ->].
  rewrite <- Hr, reverse_app, reverse_involutive. by eexists.
Qed.

(** ASCII text stays ASCII when lowered or stripped. *)
Lemma isascii_app a b :
  PyStr.isascii (a +:+ b) = PyStr.isascii a && PyStr.isascii b.
Proof.
  induction a as [|c a IH]; [done|].
  rewrite append_cons. cbn [PyStr.isascii]. by rewrite IH, andb_assoc.
Qed.

Lemma ascii_char_lower c :
  PyStr.ascii_char (PyStr.ascii_lower_char c) = PyStr.ascii_char c.
Proof. by destruct c as [[] [] [] [] [] [] [] []]. Qed.

Lemma isascii_lower s : PyStr.isascii (PyStr.ascii_lower s) = PyStr.isascii s.
Proof.
  induction s as [|c s IH]; [done|]. cbn [PyStr.ascii_lower PyStr.isascii].
  by rewrite ascii_char_lower, IH.
Qed.

Lemma isascii_reverse s : PyStr.isascii (PyStr.reverse s) = PyStr.isascii s.
Proof.
  induction s as [|c s IH]; [done|].
  rewrite reverse_cons, isascii_app, IH. cbn [PyStr.isascii].
  by rewrite andb_true_r, andb_comm.
Qed.

Lemma isascii_lstrip s :
  PyStr.isascii s = true → PyStr.isascii (PyStr.ascii_lstrip s) = true.
Proof.
  induction s as [|c s IH]; [done|]. intros H. cbn [PyStr.ascii_lstrip].
  destruct (PyStr.ascii_space c); [|done].
  apply IH. cbn [PyStr.isascii] in H. by apply andb_true_iff in H as [_ H].
Qed.

Lemma isascii_strip s :
  PyStr.isascii s = true → PyStr.isascii (PyStr.ascii_strip s) = true.
Proof.
  intros H. unfold PyStr.ascii_strip.
  rewrite isascii_reverse. apply isascii_lstrip.
  rewrite isascii_reverse. by apply isascii_lstrip.
Qed.

(** On ASCII text the two methods are the ASCII functions, also one
    after the other. *)
Lemma str_lower_strip_ascii s :
  PyStr.isascii s = true →
  str_lower (str_strip s) = PyStr.ascii_lower (PyStr.ascii_strip s).
Proof.
  intros H. rewrite (str_strip_ascii s H).
  apply str_lower_ascii. by apply isascii_strip.
Qed.

(** ** Loops and what they append *)

Section Collect.
Context {A B : Type} (f : A → option (list B)).

Lemma collect_Some_inv l r x :
  collect f l = Some r → x ∈ l → ∃ new, f x = Some new ∧ new ⊆ r.
Proof.
  revert r. induction l as [|y l IH]; intros r Hr Hx; [by apply elem_of_nil in Hx|].
  simpl in Hr. destruct (f y) as [a|] eqn:Hy; [|done]. simpl in Hr.
  destruct (collect f l) as [b|] eqn:Hl; [|done]. simpl in Hr.
  injection Hr as <-. apply elem_of_cons in Hx as [->|Hx].
  - exists a. split; [done|]. intros z Hz. apply elem_of_app. by left.
  - destruct (IH b eq_refl Hx) as (new & Hnew & Hsub).
    exists new. split; [done|]. intros z Hz. apply elem_of_app. right. by apply Hsub.
Qed.

Lemma collect_Some_elem l r m :
  collect f l = Some r → m ∈ r → ∃ x new, x ∈ l ∧ f x = Some new ∧ m ∈ new.
Proof.
  revert r. induction l as [|y l IH]; intros r Hr Hm.
  - injection Hr as <-. by apply elem_of_nil in Hm.
  - simpl in Hr. destruct (f y) as [a|] eqn:Hy; [|done]. simpl in Hr.
    destruct (collect f l) as [b|] eqn:Hl; [|done]. simpl in Hr.
    injection Hr as <-. apply elem_of_app in Hm as [Hm|Hm].
    + exists y, a. split; [apply elem_of_cons; by left|done].
    + destruct (IH b eq_refl Hm) as (x & new & Hx & Hfx & Hin).
      exists x, new. split; [apply elem_of_cons; by right|done].
Qed.

Lemma collect_is_Some l :
  (∀ x, x ∈ l → is_Some (f x)) → is_Some (collect f l).
Proof.
  induction l as [|y l IH]; intros H; [by eexists|].
  simpl. destruct (H y) as [a ->]; [apply elem_of_cons; by left|].
  destruct IH as [b ->]; [|by eexists].
  intros x Hx. apply H, elem_of_cons. by right.
Qed.

Lemma collect_None l x : x ∈ l → f x = None → collect f l = None.
Proof.
  induction l as [|y l IH]; intros Hx Hf; [by apply elem_of_nil in Hx|].
  apply elem_of_cons in Hx as [->|Hx]; simpl.
  - by rewrite Hf.
  - rewrite (IH Hx Hf). by destruct (f y).
Qed.
End Collect.

Lemma inner_loop_collect self cap_row jobber_df matches :
  inner_loop self cap_row jobber_df matches
  = (λ new, (matches ++ new)%list) <$> collect (match_pair self cap_row) jobber_df.
Proof.
  revert matches. induction jobber_df as [|j js IH]; intros matches; simpl.
  - by rewrite app_nil_r.
  - destruct (match_pair self cap_row j) as [a|]; [|done]. simpl.
    rewrite IH. destruct (collect _ js) as [b|]; [|done]. simpl.
    by rewrite app_assoc.
Qed.

Lemma outer_loop_collect self capitalone_df jobber_df matches :
  outer_loop self capitalone_df jobber_df matches
  = (λ new, (matches ++ new)%list)
      <$> collect (λ c, collect (match_pair self c) jobber_df) capitalone_df.
Proof.
  revert matches. induction capitalone_df as [|c cs IH]; intros matches; simpl.
  - by rewrite app_nil_r.
  - rewrite inner_loop_collect.
    destruct (collect (match_pair self c) jobber_df) as [a|]; [|done]. simpl.
    rewrite IH. destruct (collect _ cs) as [b|]; [|done]. simpl.
    by rewrite app_assoc.
Qed.

Lemma candidates_collect self capitalone_df jobber_df :
  candidates self capitalone_df jobber_df
  = collect (λ c, collect (match_pair self c) jobber_df) capitalone_df.
Proof.
  unfold candidates. rewrite outer_loop_collect.
  by destruct (collect _ capitalone_df).
Qed.

(** ** Scoring *)

Lemma py_div_Some a b : ¬ (b == 0)%Q → py_div a b = Some (a / b)%Q.
Proof.
  intros Hb. unfold py_div. destruct (Qeq_bool b 0) eqn:E; [|done].
  by apply Qeq_bool_iff in E.
Qed.

Lemma py_div_None a b : (b == 0)%Q → py_div a b = None.
Proof.
  intros Hb. unfold py_div. apply Qeq_bool_iff in Hb. by rewrite Hb.
Qed.

Lemma py_div_Some_inv a b q : py_div a b = Some q → ¬ (b == 0)%Q ∧ q = (a / b)%Q.
Proof.
  unfold py_div. destruct (Qeq_bool b 0) eqn:E; [done|].
  intros [= <-]. split; [|done]. intros Hb. apply Qeq_bool_iff in Hb. congruence.
Qed.

Lemma inject_Z_zero z : (inject_Z z == 0)%Q ↔ z = 0.
Proof.
  unfold Qeq. simpl. lia.
Qed.

Lemma calculate_Some self dd ad pmq :
  tolerance_days self ≠ 0 → ¬ (tolerance_amount self == 0)%Q →
  _calculate_match_quality self dd ad pmq = Some (weighted self dd ad pmq).
Proof.
  intros Hd Ha. unfold _calculate_match_quality, weighted, date_score, amount_score.
  rewrite (py_div_Some (inject_Z _) (inject_Z _)) by (by rewrite inject_Z_zero).
  simpl. rewrite py_div_Some by done. simpl.
  by destruct (check_person self).
Qed.

Lemma calculate_Some_inv self dd ad pmq q :
  _calculate_match_quality self dd ad pmq = Some q →
  tolerance_days self ≠ 0 ∧ ¬ (tolerance_amount self == 0)%Q
  ∧ q = weighted self dd ad pmq.
Proof.
  unfold _calculate_match_quality, weighted, date_score, amount_score.
  destruct (py_div (inject_Z _) _) as [d|] eqn:Ed; [|done]. simpl.
  destruct (py_div (_ - _)%Q _) as [a|] eqn:Ea; [|done]. simpl.
  apply py_div_Some_inv in Ed as [Hd ->]. apply py_div_Some_inv in Ea as [Ha ->].
  rewrite inject_Z_zero in Hd.
  destruct (check_person self); intros [= <-]; done.
Qed.

Lemma calculate_zero_days self dd ad pmq :
  tolerance_days self = 0 → _calculate_match_quality self dd ad pmq = None.
Proof.
  intros Hd. unfold _calculate_match_quality.
  rewrite (py_div_None (inject_Z _) (inject_Z _)); [done|]. by apply inject_Z_zero.
Qed.

Lemma calculate_zero_amount self dd ad pmq :
  (tolerance_amount self == 0)%Q → _calculate_match_quality self dd ad pmq = None.
Proof.
  intros Ha. unfold _calculate_match_quality.
  destruct (py_div (inject_Z _) _); [|done]. simpl.
  by rewrite py_div_None.
Qed.

(** ** One pair of rows *)

Lemma match_pair_outside self c j :
  ¬ within_tolerance self c j → match_pair self c j = Some [].
Proof.
  intros H. unfold match_pair.
  fold (row_date_diff c j). fold (row_amount_diff c j).
  destruct (row_date_diff c j <=? tolerance_days self)%Z eqn:Ed; [|done].
  destruct (Qle_bool (row_amount_diff c j) (tolerance_amount self)) eqn:Ea; [|done].
  exfalso. apply H. split; [by apply Z.leb_le|by apply Qle_bool_iff].
Qed.

Lemma match_pair_inv self c j new :
  match_pair self c j = Some new →
  new = [] ∨
  ∃ m, new = [m] ∧ records_pair m c j ∧ within_tolerance self c j
       ∧ (person_match m, person_match_quality m) = person_check self c j
       ∧ (person_match m = true ∨ check_person self = false)
       ∧ tolerance_days self ≠ 0 ∧ ¬ (tolerance_amount self == 0)%Q
       ∧ match_quality m
         = weighted self (date_diff m) (amount_diff m) (person_match_quality m).
Proof.
  unfold match_pair.
  fold (row_date_diff c j). fold (row_amount_diff c j).
  destruct (row_date_diff c j <=? tolerance_days self)%Z eqn:Ed;
    [|intros [= <-]; by left].
  destruct (Qle_bool (row_amount_diff c j) (tolerance_amount self)) eqn:Ea;
    [|intros [= <-]; by left].
  simpl. destruct (person_check self c j) as [pm pmq] eqn:Ep.
  destruct (pm || negb (check_person self)) eqn:Eg; [|intros [= <-]; by left].
  destruct (_calculate_match_quality _ _ _ _) as [q|] eqn:Eq; [|done].
  simpl. intros [= <-]. right. eexists. split; [done|].
  apply calculate_Some_inv in Eq as (Hd & Ha & ->).
  apply Z.leb_le in Ed. apply Qle_bool_iff in Ea.
  apply orb_true_iff in Eg. rewrite negb_true_iff in Eg.
  repeat split; simpl; done.
Qed.

Lemma match_pair_within self c j :
  within_tolerance self c j →
  tolerance_days self ≠ 0 → ¬ (tolerance_amount self == 0)%Q →
  (person_check self c j).1 = true ∨ check_person self = false →
  ∃ m, match_pair self c j = Some [m] ∧ records_pair m c j
       ∧ (person_match m, person_match_quality m) = person_check self c j
       ∧ match_quality m
         = weighted self (date_diff m) (amount_diff m) (person_match_quality m).
Proof.
  intros [Hd Ha] Hzd Hza Hg. unfold match_pair.
  fold (row_date_diff c j). fold (row_amount_diff c j).
  apply Z.leb_le in Hd. apply Qle_bool_iff in Ha. rewrite Hd, Ha. simpl.
  destruct (person_check self c j) as [pm pmq] eqn:Ep. simpl in Hg.
  assert (pm || negb (check_person self) = true) as ->.
  { apply orb_true_iff. rewrite negb_true_iff. done. }
  rewrite calculate_Some by done. simpl.
  eexists. split; [done|]. repeat split; done.
Qed.

(** ** The candidate list *)

Lemma candidates_generated self capitalone_df jobber_df matches m :
  candidates self capitalone_df jobber_df = Some matches →
  m ∈ matches → generated self capitalone_df jobber_df m.
Proof.
  rewrite candidates_collect. intros Hc Hm.
  destruct (collect_Some_elem _ _ _ _ Hc Hm) as (c & row_new & Hcin & Hrow & Hm1).
  destruct (collect_Some_elem _ _ _ _ Hrow Hm1) as (j & new & Hjin & Hpair & Hm2).
  exists c, j. repeat split; [done..|].
  destruct (match_pair_inv _ _ _ _ Hpair) as [->|(m' & -> & _)].
  - by apply elem_of_nil in Hm2.
  - apply list_elem_of_singleton in Hm2. by subst.
Qed.

Lemma candidates_complete self capitalone_df jobber_df matches c j m :
  candidates self capitalone_df jobber_df = Some matches →
  c ∈ capitalone_df → j ∈ jobber_df →
  match_pair self c j = Some [m] → m ∈ matches.
Proof.
  rewrite candidates_collect. intros Hc Hcin Hjin Hpair.
  destruct (collect_Some_inv _ _ _ _ Hc Hcin) as (row_new & Hrow & Hsub1).
  destruct (collect_Some_inv _ _ _ _ Hrow Hjin) as (new & Hnew & Hsub2).
  rewrite Hpair in Hnew. injection Hnew as <-.
  apply Hsub1, Hsub2, list_elem_of_singleton. done.
Qed.

(** ** The generation order *)

Lemma collect_sorted {A B} (f : A → option (list B)) (S : relation A)
    (R : relation B) (l : list A) r :
  collect f l = Some r →
  StronglySorted S l →
  (∀ x new, x ∈ l → f x = Some new → StronglySorted R new) →
  (∀ x y new new' m m',
     S x y → f x = Some new → f y = Some new' → m ∈ new → m' ∈ new' → R m m') →
  StronglySorted R r.
Proof.
  intros Hr Hl. revert r Hr.
  induction Hl as [|x l Hl IH Hx]; intros r Hr Hin Hcross.
  - injection Hr as <-. constructor.
  - simpl in Hr. destruct (f x) as [a|] eqn:Hfx; [|done]. simpl in Hr.
    destruct (collect f l) as [b|] eqn:Hb; [|done]. simpl in Hr.
    injection Hr as <-. apply StronglySorted_app_2.
    + intros m m' Hm Hm'.
      destruct (collect_Some_elem _ _ _ _ Hb Hm') as (y & new' & Hy & Hfy & Hmy).
      rewrite Forall_forall in Hx. by eapply (Hcross x y a new'); [apply Hx|..].
    + apply (Hin x); [apply elem_of_cons; by left|done].
    + apply IH; [done| |done].
      intros y new Hy. apply Hin, elem_of_cons. by right.
Qed.

Lemma match_pair_ids self c j new m :
  match_pair self c j = Some new → m ∈ new →
  new = [m] ∧ cap_idx m = idx c ∧ job_idx m = idx j.
Proof.
  intros Hp Hm.
  destruct (match_pair_inv _ _ _ _ Hp) as [->|(m' & -> & (H1 & H2 & _) & _)].
  - by apply elem_of_nil in Hm.
  - apply list_elem_of_singleton in Hm as ->. done.
Qed.

Lemma row_candidates_ids self c jobber_df new m :
  collect (match_pair self c) jobber_df = Some new → m ∈ new → cap_idx m = idx c.
Proof.
  intros Hc Hm.
  destruct (collect_Some_elem _ _ _ _ Hc Hm) as (j & pair_new & _ & Hp & Hin).
  by destruct (match_pair_ids _ _ _ _ _ Hp Hin) as (_ & ? & _).
Qed.

(** The candidates are generated source id ascending, then target id
    ascending, when the rows of both frames are. *)
Lemma candidates_generation_order self capitalone_df jobber_df cands :
  ascending capitalone_df → ascending jobber_df →
  candidates self capitalone_df jobber_df = Some cands →
  StronglySorted id_order cands.
Proof.
  intros Hcap Hjob. rewrite candidates_collect. intros Hc.
  eapply collect_sorted; [exact Hc|exact Hcap|..].
  - intros c new _ Hnew.
    eapply collect_sorted; [exact Hnew|exact Hjob|..].
    + intros j pair_new _ Hp.
      destruct (match_pair_inv _ _ _ _ Hp) as [->|(m & -> & _)];
        repeat constructor.
    + intros j j' new1 new2 m m' Hlt Hp Hp' Hm Hm'.
      destruct (match_pair_ids _ _ _ _ _ Hp Hm) as (_ & Hc1 & Hj1).
      destruct (match_pair_ids _ _ _ _ _ Hp' Hm') as (_ & Hc2 & Hj2).
      right. split; [congruence|]. by rewrite Hj1, Hj2.
  - intros c c' new new' m m' Hlt Hnew Hnew' Hm Hm'.
    left. rewrite (row_candidates_ids _ _ _ _ _ Hnew Hm).
    by rewrite (row_candidates_ids _ _ _ _ _ Hnew' Hm').
Qed.

(** ** The sort *)

Lemma quality_lt_spec a b :
  quality_lt a b = true ↔ (match_quality a < match_quality b)%Q.
Proof.
  unfold quality_lt. rewrite Qlt_alt.
  destruct (match_quality a ?= match_quality b)%Q; split; congruence.
Qed.

Lemma quality_lt_false a b :
  quality_lt a b = false ↔ (match_quality b <= match_quality a)%Q.
Proof.
  rewrite <- not_true_iff_false, quality_lt_spec. split.
  - apply Qnot_lt_le.
  - apply Qle_not_lt.
Qed.

Lemma insert_desc_perm x l : insert_desc x l ≡ₚ x :: l.
Proof.
  induction l as [|y l IH]; simpl; [done|].
  destruct (quality_lt x y); [|done].
  rewrite IH. apply Permutation_swap.
Qed.

Lemma sort_desc_perm l : sort_desc l ≡ₚ l.
Proof.
  induction l as [|x l IH]; simpl; [done|].
  rewrite insert_desc_perm. by rewrite IH.
Qed.

Lemma insert_desc_sorted x l :
  StronglySorted quality_ge l → StronglySorted quality_ge (insert_desc x l).
Proof.
  induction 1 as [|y l Hl IH Hy]; simpl.
  - repeat constructor.
  - destruct (quality_lt x y) eqn:E.
    + constructor; [done|].
      rewrite insert_desc_perm. constructor; [|done].
      apply quality_lt_spec in E. by apply Qlt_le_weak.
    + apply quality_lt_false in E.
      constructor; [by constructor|]. constructor; [done|].
      eapply Forall_impl; [exact Hy|]. simpl. intros z Hz.
      by apply Qle_trans with (match_quality y).
Qed.

Lemma sort_desc_sorted l : StronglySorted quality_ge (sort_desc l).
Proof.
  induction l as [|x l IH]; simpl; [constructor|].
  by apply insert_desc_sorted.
Qed.

Lemma insert_desc_stable v x l :
  Reference.of_quality v (insert_desc x l) = Reference.of_quality v (x :: l).
Proof.
  unfold Reference.of_quality.
  induction l as [|y l IH]; [done|].
  cbn [insert_desc]. destruct (quality_lt x y) eqn:E; [|done].
  apply quality_lt_spec in E.
  cbn [List.filter] in *. rewrite IH.
  destruct (Qeq_bool (match_quality y) v) eqn:Ey; [|done].
  destruct (Qeq_bool (match_quality x) v) eqn:Ex; [|done].
  apply Qeq_bool_iff in Ex, Ey. rewrite Ex, Ey in E.
  by apply Qlt_irrefl in E.
Qed.

Lemma sort_desc_stable v l :
  Reference.of_quality v (sort_desc l) = Reference.of_quality v l.
Proof.
  induction l as [|x l IH]; [done|].
  cbn [sort_desc foldr]. rewrite insert_desc_stable.
  unfold Reference.of_quality in *. cbn [List.filter].
  fold (sort_desc l). by rewrite IH.
Qed.

Lemma sort_desc_stable_sorted l : Reference.stable_sorted_desc l (sort_desc l).
Proof.
  split; [apply sort_desc_perm|apply sort_desc_sorted|].
  intros v. apply sort_desc_stable.
Qed.

Lemma of_quality_elem v l m :
  m ∈ Reference.of_quality v l → m ∈ l.
Proof.
  unfold Reference.of_quality. rewrite !list_elem_of_In, filter_In. tauto.
Qed.

(** Two descending lists with the same candidates in the same order
    within every quality are the same list. *)
Lemma stable_sorted_determined s1 s2 :
  StronglySorted quality_ge s1 → StronglySorted quality_ge s2 →
  (∀ v, Reference.of_quality v s1 = Reference.of_quality v s2) →
  s1 = s2.
Proof.
  intros H1. revert s2.
  induction H1 as [|a s1 Hs1 IH Ha]; intros s2 H2 Heq.
  - destruct s2 as [|b s2]; [done|].
    specialize (Heq (match_quality b)). unfold Reference.of_quality in Heq.
    cbn [List.filter] in Heq. by rewrite Qeq_bool_refl in Heq.
  - destruct s2 as [|b s2].
    { specialize (Heq (match_quality a)). unfold Reference.of_quality in Heq.
      cbn [List.filter] in Heq. by rewrite Qeq_bool_refl in Heq. }
    apply StronglySorted_inv in H2 as [Hs2 Hb].
    assert (Qeq_bool (match_quality b) (match_quality a) = true) as Hba.
    { destruct (Qeq_bool (match_quality b) (match_quality a)) eqn:E; [done|].
      assert (Qeq_bool (match_quality a) (match_quality b) = false) as E'.
      { apply not_true_iff_false. intros H%Qeq_bool_iff.
        apply not_true_iff_false in E. apply E, Qeq_bool_iff. by symmetry. }
      pose proof (Heq (match_quality a)) as Hqa.
      pose proof (Heq (match_quality b)) as Hqb.
      unfold Reference.of_quality in Hqa, Hqb. cbn [List.filter] in Hqa, Hqb.
      rewrite !Qeq_bool_refl in Hqa, Hqb. rewrite E in Hqa. rewrite E' in Hqb.
      assert (a ∈ s2) as Ha2.
      { apply (of_quality_elem (match_quality a)). unfold Reference.of_quality.
        rewrite <- Hqa. apply elem_of_cons. by left. }
      assert (b ∈ s1) as Hb1.
      { apply (of_quality_elem (match_quality b)). unfold Reference.of_quality.
        rewrite Hqb. apply elem_of_cons. by left. }
      rewrite Forall_forall in Ha, Hb.
      apply not_true_iff_false in E. exfalso. apply E.
      apply Qeq_bool_iff, Qle_antisym; [apply Ha, Hb1|apply Hb, Ha2]. }
    assert (a = b) as <-.
    { specialize (Heq (match_quality a)). unfold Reference.of_quality in Heq.
      cbn [List.filter] in Heq. rewrite Qeq_bool_refl, Hba in Heq. congruence. }
    f_equal. apply IH; [done|]. intros v.
    specialize (Heq v). unfold Reference.of_quality in *.
    cbn [List.filter] in Heq. destruct (Qeq_bool (match_quality a) v); congruence.
Qed.

Lemma stable_sorted_desc_unique l s1 s2 :
  Reference.stable_sorted_desc l s1 → Reference.stable_sorted_desc l s2 → s1 = s2.
Proof.
  intros [_ H1 E1] [_ H2 E2]. apply stable_sorted_determined; [done..|].
  intros v. by rewrite E1, E2.
Qed.

(** ** The duplicate-removal loop *)

Lemma cap_ids_snoc l m : cap_ids (l ++ [m]) = {[cap_idx m]} ∪ cap_ids l.
Proof.
  unfold cap_ids. rewrite fmap_app, list_to_set_app_L, (comm_L (∪)). simpl.
  by rewrite (right_id_L ∅ (∪)).
Qed.

Lemma job_ids_snoc l m : job_ids (l ++ [m]) = {[job_idx m]} ∪ job_ids l.
Proof.
  unfold job_ids. rewrite fmap_app, list_to_set_app_L, (comm_L (∪)). simpl.
  by rewrite (right_id_L ∅ (∪)).
Qed.

Lemma elem_of_cap_ids i l : i ∈ cap_ids l ↔ ∃ a, a ∈ l ∧ cap_idx a = i.
Proof.
  unfold cap_ids. rewrite elem_of_list_to_set, list_elem_of_fmap.
  split; intros (a & H1 & H2); exists a; by split.
Qed.

Lemma elem_of_job_ids i l : i ∈ job_ids l ↔ ∃ a, a ∈ l ∧ job_idx a = i.
Proof.
  unfold job_ids. rewrite elem_of_list_to_set, list_elem_of_fmap.
  split; intros (a & H1 & H2); exists a; by split.
Qed.

Lemma consumed_iff accepted m :
  Reference.consumed accepted m
  ↔ cap_idx m ∈ cap_ids accepted ∨ job_idx m ∈ job_ids accepted.
Proof.
  unfold Reference.consumed. rewrite elem_of_cap_ids, elem_of_job_ids. split.
  - intros (a & Ha & [H|H]); [left|right]; by exists a.
  - intros [(a & Ha & H)|(a & Ha & H)]; exists a; tauto.
Qed.

Lemma dedup_guard_true accepted m :
  bool_decide (cap_idx m ∉ cap_ids accepted)
  && bool_decide (job_idx m ∉ job_ids accepted) = true
  ↔ ¬ Reference.consumed accepted m.
Proof.
  rewrite consumed_iff, andb_true_iff, !bool_decide_eq_true. tauto.
Qed.

(** The loop keeps its sets equal to the ids of [final_matches], and its
    run is a traversal in the sense of the specification. *)
Lemma dedup_loop_traverse s accepted :
  let r := dedup_loop s (cap_ids accepted) (job_ids accepted) accepted in
  Reference.traverse s accepted r.1.1
  ∧ r.1.2 = cap_ids r.1.1 ∧ r.2 = job_ids r.1.1.
Proof.
  revert accepted. induction s as [|m s IH]; intros accepted; simpl.
  - split; [constructor|done].
  - destruct (bool_decide (cap_idx m ∉ cap_ids accepted)
              && bool_decide (job_idx m ∉ job_ids accepted)) eqn:E.
    + apply dedup_guard_true in E.
      rewrite <- cap_ids_snoc, <- job_ids_snoc.
      destruct (IH (accepted ++ [m])%list) as (Ht & Hc & Hj).
      split; [by apply Reference.traverse_accept|done].
    + assert (Reference.consumed accepted m) as Hcons.
      { apply not_true_iff_false in E. rewrite dedup_guard_true in E.
        rewrite consumed_iff in *.
        destruct (decide (cap_idx m ∈ cap_ids accepted)); [by left|].
        destruct (decide (job_idx m ∈ job_ids accepted)); [by right|].
        exfalso. apply E. tauto. }
      destruct (IH accepted) as (Ht & Hc & Hj).
      split; [by apply Reference.traverse_skip|done].
Qed.

Lemma traverse_functional s accepted f1 f2 :
  Reference.traverse s accepted f1 → Reference.traverse s accepted f2 → f1 = f2.
Proof.
  intros H1. revert f2.
  induction H1 as [acc|m s acc f Hn _ IH|m s acc f Hc _ IH]; intros f2 H2;
    inversion H2; subst; try done; by apply IH.
Qed.

Lemma traverse_elem s accepted final m :
  Reference.traverse s accepted final → m ∈ final → m ∈ accepted ∨ m ∈ s.
Proof.
  induction 1 as [acc|x s acc f Hn _ IH|x s acc f Hc _ IH]; intros Hm.
  - by left.
  - destruct (IH Hm) as [Ha|Hs].
    + apply elem_of_app in Ha as [Ha|Ha]; [by left|].
      apply list_elem_of_singleton in Ha as ->. right. apply elem_of_cons. by left.
    + right. apply elem_of_cons. by right.
  - destruct (IH Hm) as [Ha|Hs]; [by left|]. right. apply elem_of_cons. by right.
Qed.

Lemma traverse_NoDup s accepted final :
  Reference.traverse s accepted final →
  NoDup (cap_idx <$> accepted) → NoDup (job_idx <$> accepted) →
  NoDup (cap_idx <$> final) ∧ NoDup (job_idx <$> final).
Proof.
  induction 1 as [acc|x s acc f Hn _ IH|x s acc f Hc _ IH]; intros Hcap Hjob;
    [done| |by apply IH].
  rewrite consumed_iff in Hn. unfold cap_ids, job_ids in Hn.
  rewrite !elem_of_list_to_set in Hn.
  apply IH; rewrite fmap_app; apply NoDup_app; (split; [done|]); simpl;
    (split; [|apply NoDup_singleton]);
    intros i Hi Hx; apply list_elem_of_singleton in Hx as ->; tauto.
Qed.

(** Every candidate the traversal leaves out shares an id with an
    accepted one: the matching is maximal. *)
Lemma traverse_keeps s accepted final :
  Reference.traverse s accepted final → ∀ m, m ∈ accepted → m ∈ final.
Proof.
  induction 1 as [acc|x s acc f Hn _ IH|x s acc f Hc _ IH]; intros m Hm;
    [done| |by apply IH].
  apply IH, elem_of_app. by left.
Qed.

Lemma traverse_maximal s accepted final m :
  Reference.traverse s accepted final → m ∈ s → Reference.consumed final m.
Proof.
  induction 1 as [acc|x s acc f Hn Ht IH|x s acc f Hc Ht IH]; intros Hm.
  - by apply elem_of_nil in Hm.
  - apply elem_of_cons in Hm as [->|Hm]; [|by apply IH].
    exists x. split; [|by left].
    apply (traverse_keeps _ _ _ Ht), elem_of_app. right.
    by apply list_elem_of_singleton.
  - apply elem_of_cons in Hm as [->|Hm]; [|by apply IH].
    destruct Hc as (a & Ha & Hids). exists a. split; [|done].
    by apply (traverse_keeps _ _ _ Ht).
Qed.

Lemma assign_traverse cands :
  Reference.traverse (sort_desc cands) [] (assign cands).1.1
  ∧ (assign cands).1.2 = cap_ids (assign cands).1.1
  ∧ (assign cands).2 = job_ids (assign cands).1.1.
Proof.
  unfold assign. apply (dedup_loop_traverse (sort_desc cands) []).
Qed.

(** C6: the assignment step of [find_matches] (sort by quality with
    [reverse=True], then the loop over the two [used] sets) is the
    reference algorithm of the specification.  For every candidate list
    its result is a result of: stable-sort by quality descending, ties in
    generation order; one traversal accepting a candidate exactly when no
    earlier accepted candidate has its source or target id; accepted
    candidates appended to the matches and their ids marked consumed.
    That algorithm has no other result.  The generation order the ties
    keep is source id ascending, then target id ascending, for frames
    whose rows come with ascending ids. *)
Theorem assignment_is_reference (cands : list match_rec) :
  Reference.resolve cands (assign cands)
  ∧ (∀ r, Reference.resolve cands r → r = assign cands)
  ∧ (∀ self capitalone_df jobber_df,
       ascending capitalone_df → ascending jobber_df →
       candidates self capitalone_df jobber_df = Some cands →
       StronglySorted id_order cands
       ∧ find_matches self capitalone_df jobber_df = Some (assign cands)).
Proof.
  destruct (assign_traverse cands) as (Ht & Hc & Hj). split; [|split].
  - exists (sort_desc cands). split; [apply sort_desc_stable_sorted|done].
  - intros [[fm uc] uj] (s & Hs & Ht' & Hc' & Hj'). simpl in *.
    rewrite (stable_sorted_desc_unique _ _ _ Hs (sort_desc_stable_sorted cands)) in Ht'.
    pose proof (traverse_functional _ _ _ _ Ht' Ht) as ->.
    subst uc uj. fold (cap_ids (assign cands).1.1). fold (job_ids (assign cands).1.1).
    rewrite <- Hc, <- Hj. by destruct (assign cands) as [[? ?] ?].
  - intros self capitalone_df jobber_df Hcap Hjob Hcands. split.
    + exact (candidates_generation_order _ _ _ _ Hcap Hjob Hcands).
    + unfold find_matches. by rewrite Hcands.
Qed.

(** ** The result of [find_matches] *)

Lemma find_matches_inv self capitalone_df jobber_df fm uc uj :
  find_matches self capitalone_df jobber_df = Some (fm, uc, uj) →
  ∃ cands, candidates self capitalone_df jobber_df = Some cands
           ∧ assign cands = (fm, uc, uj).
Proof.
  unfold find_matches.
  destruct (candidates self capitalone_df jobber_df) as [cands|]; [|done].
  simpl. intros [= H]. by exists cands.
Qed.

Lemma assign_elem cands m : m ∈ (assign cands).1.1 → m ∈ cands.
Proof.
  intros Hm. destruct (assign_traverse cands) as (Ht & _).
  destruct (traverse_elem _ _ _ _ Ht Hm) as [H|H]; [by apply elem_of_nil in H|].
  by rewrite sort_desc_perm in H.
Qed.

Lemma assign_NoDup cands :
  NoDup (cap_idx <$> (assign cands).1.1) ∧ NoDup (job_idx <$> (assign cands).1.1).
Proof.
  destruct (assign_traverse cands) as (Ht & _).
  apply (traverse_NoDup _ _ _ Ht); constructor.
Qed.

Lemma assign_maximal cands m :
  m ∈ cands → Reference.consumed (assign cands).1.1 m.
Proof.
  intros Hm. destruct (assign_traverse cands) as (Ht & _).
  apply (traverse_maximal _ _ _ _ Ht). by rewrite sort_desc_perm.
Qed.

(** What [find_matches] returns: matches that are candidates, pairwise
    distinct in both ids, and the sets of exactly their ids. *)
Lemma find_matches_facts self capitalone_df jobber_df fm uc uj :
  find_matches self capitalone_df jobber_df = Some (fm, uc, uj) →
  (∀ m, m ∈ fm → generated self capitalone_df jobber_df m)
  ∧ NoDup (cap_idx <$> fm) ∧ NoDup (job_idx <$> fm)
  ∧ uc = cap_ids fm ∧ uj = job_ids fm.
Proof.
  intros (cands & Hc & Ha)%find_matches_inv.
  pose proof (assign_NoDup cands) as [Hn1 Hn2].
  pose proof (assign_traverse cands) as (_ & Huc & Huj).
  pose proof (assign_elem cands) as Hel.
  rewrite Ha in *. simpl in *. repeat split; [|done..].
  intros m Hm. eapply candidates_generated; [done|]. by apply Hel.
Qed.

Lemma generated_ids self capitalone_df jobber_df m :
  generated self capitalone_df jobber_df m →
  cap_idx m ∈ idx <$> capitalone_df ∧ job_idx m ∈ idx <$> jobber_df.
Proof.
  intros (c & j & Hc & Hj & Hp).
  destruct (match_pair_inv _ _ _ _ Hp) as [|(m' & [= <-] & (H1 & H2 & _) & _)];
    [done|].
  rewrite H1, H2. split; by apply list_elem_of_fmap_2.
Qed.

(** ** The report *)

Lemma omap_fmap_Some {A B C} (g : A → B) (f : B → option C) (h : A → C)
    (l : list A) :
  (∀ x, f (g x) = Some (h x)) → omap f (g <$> l) = h <$> l.
Proof.
  intros H. induction l as [|x l IH]; [done|]. csimpl. by rewrite H, IH.
Qed.

Lemma omap_fmap_None {A B C} (g : A → B) (f : B → option C) (l : list A) :
  (∀ x, f (g x) = None) → omap f (g <$> l) = [].
Proof.
  intros H. induction l as [|x l IH]; [done|]. csimpl. by rewrite H, IH.
Qed.

Section Report.
Context (capitalone_df jobber_df : list row) (fm : list match_rec)
        (uc uj : gset nat).
Let report := generate_report_df capitalone_df jobber_df fm uc uj.

Lemma report_matches_of : matches_of report = fm.
Proof.
  unfold report, generate_report_df, matches_of. rewrite !omap_app.
  rewrite (omap_fmap_Some MATCH _ id) by done.
  rewrite !omap_fmap_None by done. by rewrite list_fmap_id, !app_nil_r.
Qed.

Lemma report_matched_source : matched_source report = cap_idx <$> fm.
Proof.
  unfold report, generate_report_df, matched_source. rewrite !omap_app.
  rewrite (omap_fmap_Some MATCH _ cap_idx) by done.
  rewrite !omap_fmap_None by done. by rewrite !app_nil_r.
Qed.

Lemma report_matched_target : matched_target report = job_idx <$> fm.
Proof.
  unfold report, generate_report_df, matched_target. rewrite !omap_app.
  rewrite (omap_fmap_Some MATCH _ job_idx) by done.
  rewrite !omap_fmap_None by done. by rewrite !app_nil_r.
Qed.

Lemma report_unmatched_source :
  unmatched_source report = idx <$> filter (λ r, idx r ∉ uc) capitalone_df.
Proof.
  unfold report, generate_report_df, unmatched_source. rewrite !omap_app.
  rewrite (omap_fmap_Some MISSING_IN_JOBBER _ idx) by done.
  rewrite !omap_fmap_None by done. by rewrite app_nil_r.
Qed.

Lemma report_unmatched_target :
  unmatched_target report = idx <$> filter (λ r, idx r ∉ uj) jobber_df.
Proof.
  unfold report, generate_report_df, unmatched_target. rewrite !omap_app.
  rewrite (omap_fmap_Some MISSING_IN_CAPITALONE _ idx) by done.
  by rewrite !omap_fmap_None by done.
Qed.
End Report.

(** Counting the rows a [used] set leaves out. *)
Lemma unused_count (rows : list row) (used : list nat) :
  NoDup (idx <$> rows) → NoDup used → (∀ i, i ∈ used → i ∈ idx <$> rows) →
  (length used
   + length (filter (λ r, idx r ∉ (list_to_set used : gset nat)) rows))%nat
  = length rows.
Proof.
  intros Hrows Hused Hsub.
  set (U := list_to_set used : gset nat).
  rewrite <- (Permutation_length (filter_app_complement (λ r, idx r ∈ U) rows)).
  rewrite length_app. f_equal.
  rewrite <- (length_fmap idx (filter _ rows)). apply Permutation_length.
  apply NoDup_Permutation; [done| |].
  - apply (sublist_NoDup _ (idx <$> rows)); [done|].
    apply fmap_sublist, sublist_filter.
  - intros i. rewrite list_elem_of_fmap. split.
    + intros Hi. destruct (list_elem_of_fmap_1 _ _ _ (Hsub i Hi)) as (r & -> & Hr).
      exists r. split; [done|]. apply list_elem_of_filter. split; [|done].
      by apply elem_of_list_to_set.
    + intros (r & -> & Hr). apply list_elem_of_filter in Hr as [Hr _].
      by apply elem_of_list_to_set in Hr.
Qed.

(** One side of the partition: the ids of [rows] split into the ids
    [used] and the ids of the rows the filter keeps. *)
Lemma side_partition (rows : list row) (used : list nat) :
  NoDup (idx <$> rows) → NoDup used → (∀ i, i ∈ used → i ∈ idx <$> rows) →
  let rest := idx <$> filter (λ r, idx r ∉ (list_to_set used : gset nat)) rows in
  (∀ i, i ∈ idx <$> rows ↔ i ∈ used ∨ i ∈ rest)
  ∧ (∀ i, ¬ (i ∈ used ∧ i ∈ rest))
  ∧ NoDup rest
  ∧ (length used + length rest)%nat = length rows.
Proof.
  intros Hrows Hused Hsub rest.
  assert (∀ i, i ∈ rest ↔ i ∈ idx <$> rows ∧ i ∉ used) as Hrest.
  { intros i. unfold rest. rewrite !list_elem_of_fmap. split.
    - intros (r & -> & Hr). apply list_elem_of_filter in Hr as [Hn Hr].
      rewrite elem_of_list_to_set in Hn. split; [by exists r|done].
    - intros [(r & -> & Hr) Hn]. exists r. split; [done|].
      apply list_elem_of_filter. by rewrite elem_of_list_to_set. }
  repeat split.
  - intros Hi. destruct (decide (i ∈ used)); [by left|right]. by apply Hrest.
  - intros [Hi|Hi]; [by apply Hsub|by apply Hrest in Hi as [? _]].
  - intros i [Hi Hr]. by apply Hrest in Hr as [_ ?].
  - apply (sublist_NoDup _ (idx <$> rows)); [done|].
    apply fmap_sublist, sublist_filter.
  - unfold rest. rewrite length_fmap. by apply unused_count.
Qed.

(** ** The partition and the tolerances *)

Lemma generated_contained self capitalone_df jobber_df m :
  generated self capitalone_df jobber_df m →
  contained self capitalone_df jobber_df m.
Proof.
  intros (c & j & Hc & Hj & Hp). exists c, j.
  destruct (match_pair_inv _ _ _ _ Hp) as [|(m' & [= <-] & Hrec & [Hd Ha] & _)];
    [done|].
  destruct Hrec as (H1 & H2 & H3 & H4 & H5 & H6).
  repeat split; try done; by rewrite ?H5, ?H6.
Qed.

(** C4: with ids unique within each frame, the report partitions the
    records.  Every source id is the source of a match or is listed as
    missing in Jobber, never both, and no id is listed twice; the same
    for target ids; and the matches and the unmatched rows of a side
    count up to the rows of that side. *)
Theorem reconciliation_partitions self capitalone_df jobber_df report :
  NoDup (idx <$> capitalone_df) → NoDup (idx <$> jobber_df) →
  reconcile self capitalone_df jobber_df = Some report →
  ((∀ i, i ∈ idx <$> capitalone_df
         ↔ i ∈ matched_source report ∨ i ∈ unmatched_source report)
   ∧ (∀ i, ¬ (i ∈ matched_source report ∧ i ∈ unmatched_source report))
   ∧ NoDup (matched_source report) ∧ NoDup (unmatched_source report)
   ∧ (length (matches_of report) + length (unmatched_source report))%nat
     = length capitalone_df)
  ∧ ((∀ i, i ∈ idx <$> jobber_df
           ↔ i ∈ matched_target report ∨ i ∈ unmatched_target report)
     ∧ (∀ i, ¬ (i ∈ matched_target report ∧ i ∈ unmatched_target report))
     ∧ NoDup (matched_target report) ∧ NoDup (unmatched_target report)
     ∧ (length (matches_of report) + length (unmatched_target report))%nat
       = length jobber_df).
Proof.
  intros Hcap Hjob. unfold reconcile.
  destruct (find_matches self capitalone_df jobber_df) as [[[fm uc] uj]|] eqn:Hfm;
    [|done].
  simpl. intros [= <-].
  destruct (find_matches_facts _ _ _ _ _ _ Hfm) as (Hgen & Hn1 & Hn2 & -> & ->).
  rewrite report_matches_of, report_matched_source, report_matched_target,
    report_unmatched_source, report_unmatched_target.
  split.
  - destruct (side_partition capitalone_df (cap_idx <$> fm)) as (P1 & P2 & P3 & P4);
      [done..| |].
    { intros i (m & -> & Hm)%list_elem_of_fmap_1.
      by apply (generated_ids _ _ _ _ (Hgen m Hm)). }
    rewrite length_fmap in P4. done.
  - destruct (side_partition jobber_df (job_idx <$> fm)) as (P1 & P2 & P3 & P4);
      [done..| |].
    { intros i (m & -> & Hm)%list_elem_of_fmap_1.
      by apply (generated_ids _ _ _ _ (Hgen m Hm)). }
    rewrite length_fmap in P4. done.
Qed.

(** C5: tolerance containment.  A pair of rows yields a candidate only if
    its date difference is at most [tolerance_days] and its amount
    difference at most [tolerance_amount]; so every candidate, and every
    match [find_matches] returns, records a pair of rows of the two
    frames with both differences within the tolerances. *)
Theorem tolerance_containment self capitalone_df jobber_df fm uc uj :
  find_matches self capitalone_df jobber_df = Some (fm, uc, uj) →
  (∀ c j m, match_pair self c j = Some [m] → within_tolerance self c j)
  ∧ (∃ cands, candidates self capitalone_df jobber_df = Some cands
              ∧ (∀ m, m ∈ fm → m ∈ cands)
              ∧ ∀ m, m ∈ cands → contained self capitalone_df jobber_df m)
  ∧ (∀ m, m ∈ fm → contained self capitalone_df jobber_df m).
Proof.
  intros Hfm. split; [|split].
  - intros c j m Hp.
    by destruct (match_pair_inv _ _ _ _ Hp) as [|(m' & _ & _ & Hw & _)].
  - destruct (find_matches_inv _ _ _ _ _ _ Hfm) as (cands & Hc & Ha).
    exists cands. split; [done|]. split.
    + intros m Hm. apply assign_elem. by rewrite Ha.
    + intros m Hm. by eapply generated_contained, candidates_generated.
  - intros m Hm. apply generated_contained.
    by apply (find_matches_facts _ _ _ _ _ _ Hfm).
Qed.

(** ** Identity and candidate generation *)

Lemma compare_persons_cases cap job :
  compare_persons cap job = (true, 1%Q)
  ∨ compare_persons cap job = (true, 0.8%Q)
  ∨ compare_persons cap job = (false, 0%Q).
Proof.
  unfold compare_persons.
  destruct (String.eqb _ _); [by left|].
  destruct (_ || _); [right; by left|right; by right].
Qed.

Lemma person_compared_spec self c j :
  person_compared self c j = true
  ↔ check_person self = true ∧ person c ≠ "N/A" ∧ person j ≠ "N/A".
Proof.
  unfold person_compared.
  rewrite !andb_true_iff, !negb_true_iff, <- !not_true_iff_false, !String.eqb_eq.
  tauto.
Qed.

Lemma person_check_cases self c j :
  person_check self c j = (true, 1%Q)
  ∨ person_check self c j = (true, 0.8%Q)
  ∨ (person_check self c j = (false, 0%Q)
     ∧ check_person self = true
     ∧ confirmed_different (person c) (person j)).
Proof.
  unfold person_check. destruct (person_compared self c j) eqn:E; [|by left].
  apply person_compared_spec in E as (Hc & Hp & Hj).
  destruct (compare_persons_cases (person c) (person j)) as [H|[H|H]];
    [by left|right; by left|].
  right. right. repeat split; [done..|]. by rewrite H.
Qed.

Lemma person_check_different self c j :
  check_person self = true → confirmed_different (person c) (person j) →
  person_check self c j = (false, 0%Q).
Proof.
  intros Hc (Hp & Hj & H0). unfold person_check.
  assert (person_compared self c j = true) as -> by by apply person_compared_spec.
  destruct (compare_persons_cases (person c) (person j)) as [H|[H|H]];
    rewrite H in H0; simpl in H0; [done..|by rewrite H].
Qed.

(** What the person block leaves in a candidate when [check_person] is
    on: a match flag that is set, a score of [1.0] or [0.8], and never a
    pair of applicable identities whose comparison gave [0.0]. *)
Lemma generated_person_ok self capitalone_df jobber_df m :
  check_person self = true → generated self capitalone_df jobber_df m →
  person_match m = true
  ∧ (person_match_quality m = 1%Q ∨ person_match_quality m = 0.8%Q)
  ∧ ¬ confirmed_different (cap_person m) (job_person m).
Proof.
  intros Hchk (c & j & _ & _ & Hp).
  destruct (match_pair_inv _ _ _ _ Hp)
    as [|(m' & [= <-] & Hrec & _ & Hpc & Hg & _)]; [done|].
  destruct Hrec as (_ & _ & -> & -> & _).
  assert (person_match m = true) as Hpm by (destruct Hg; congruence).
  split; [done|]. split.
  - destruct (person_check_cases self c j) as [H|[H|(H & _)]];
      rewrite H in Hpc; injection Hpc as H1 H2;
      [by left|by right|congruence].
  - intros Hdiff. rewrite (person_check_different _ _ _ Hchk Hdiff) in Hpc.
    congruence.
Qed.

(** C1, as the code has it: with [check_person] on, a pair whose identity
    comparison yields [0.0] appends no candidate, whatever its date and
    amount differences, so no candidate and no final match pairs two
    records of confirmed different persons; every candidate and every
    final match carries a set person flag and an identity score of [1.0]
    or [0.8].  The comparison is the code's, made with Python's
    [str.lower] and [str.strip]. *)
Theorem identity_mismatch_excludes self capitalone_df jobber_df :
  check_person self = true →
  (∀ c j, confirmed_different (person c) (person j) → match_pair self c j = Some [])
  ∧ (∀ cands m, candidates self capitalone_df jobber_df = Some cands → m ∈ cands →
       person_match m = true
       ∧ (person_match_quality m = 1%Q ∨ person_match_quality m = 0.8%Q)
       ∧ ¬ confirmed_different (cap_person m) (job_person m))
  ∧ (∀ fm uc uj m, find_matches self capitalone_df jobber_df = Some (fm, uc, uj) →
       m ∈ fm →
       person_match m = true
       ∧ (person_match_quality m = 1%Q ∨ person_match_quality m = 0.8%Q)
       ∧ ¬ confirmed_different (cap_person m) (job_person m)).
Proof.
  intros Hchk. split; [|split].
  - intros c j Hdiff. unfold match_pair.
    rewrite (person_check_different _ _ _ Hchk Hdiff), Hchk. simpl.
    by destruct (_ && _).
  - intros cands m Hc Hm.
    by eapply generated_person_ok, candidates_generated.
  - intros fm uc uj m Hfm Hm.
    eapply generated_person_ok; [done|].
    by apply (find_matches_facts _ _ _ _ _ _ Hfm).
Qed.

(** ** When the identity term enters the score *)

(** C2, as the code has it.  The comparison is made exactly when
    [check_person] is on and neither person is ["N/A"]; ["Unknown"] is a
    name like any other.  A candidate is scored with the 0.3/0.7 weights
    exactly when [check_person] is off; when it is on and a side is
    ["N/A"], the score uses the 0.2/0.4/0.4 weights with the identity
    score left at its default [1.0]; when the comparison is made, it uses
    those weights with the score of the comparison. *)
Theorem identity_term_rule self c j :
  (person_compared self c j = true
   ↔ check_person self = true ∧ person c ≠ "N/A" ∧ person j ≠ "N/A")
  ∧ ∀ m, match_pair self c j = Some [m] →
      let ds := date_score self (date_diff m) in
      let az := amount_score self (amount_diff m) in
      (check_person self = false →
         match_quality m = (ds * 0.3 + az * 0.7)%Q)
      ∧ (check_person self = true → person_compared self c j = false →
           person_match_quality m = 1%Q
           ∧ match_quality m = (ds * 0.2 + az * 0.4 + 1 * 0.4)%Q)
      ∧ (person_compared self c j = true →
           (person_match m, person_match_quality m)
           = compare_persons (person c) (person j)
           ∧ match_quality m
             = (ds * 0.2 + az * 0.4 + person_match_quality m * 0.4)%Q).
Proof.
  split; [apply person_compared_spec|].
  intros m Hp.
  destruct (match_pair_inv _ _ _ _ Hp)
    as [|(m' & [= <-] & _ & _ & Hpc & _ & _ & _ & Hq)]; [done|].
  unfold weighted in Hq. unfold person_check in Hpc. simpl.
  split; [|split].
  - intros Hchk. by rewrite Hchk in Hq.
  - intros Hchk Hcmp. rewrite Hchk in Hq. rewrite Hcmp in Hpc.
    injection Hpc as _ Hpmq. split; [done|]. by rewrite Hq, Hpmq.
  - intros Hcmp. rewrite Hcmp in Hpc. split; [done|].
    apply person_compared_spec in Hcmp as (Hchk & _). by rewrite Hchk in Hq.
Qed.

(** ** Zero tolerances *)

(** C3 fails on the code: there is no guard for a zero tolerance.  With
    [tolerance_days = 0] (the least value of the days slider) scoring a
    pair of the same day and amount divides zero by zero, and
    [find_matches] ends in [ZeroDivisionError] instead of a match of
    quality 1; so does scoring under [tolerance_amount = 0]. *)
Lemma zero_tolerance_raises :
  within_tolerance (init 2 0 false) aaron_bank aaron_expense
  ∧ _calculate_match_quality (init 2 0 false) 0 0 1 = None
  ∧ find_matches (init 2 0 false) [aaron_bank] [aaron_expense] = None
  ∧ _calculate_match_quality (init 0 2 false) 0 0 1 = None
  ∧ find_matches (init 0 2 false) [aaron_bank] [aaron_expense] = None.
Proof.
  split; [by vm_compute|]. repeat split; by vm_compute.
Qed.

(** ** The identity comparison *)

Lemma startswith_spec n h : PyStr.startswith n h = true ↔ ∃ post, h = n +:+ post.
Proof.
  revert h. induction n as [|a n IH]; intros h; simpl.
  - split; [intros _; by exists h|done].
  - destruct h as [|b h].
    + split; [done|]. by intros [post [=]].
    + destruct (Ascii.eqb a b) eqn:E.
      * apply Ascii.eqb_eq in E as ->. rewrite IH. split.
        -- intros [post ->]. by exists post.
        -- intros [post [= ->]]. by exists post.
      * apply Ascii.eqb_neq in E. split; [done|]. intros [post [= -> _]]. done.
Qed.

Lemma contains_spec n h : PyStr.contains n h = true ↔ substring n h.
Proof.
  induction h as [|c h IH].
  - simpl. destruct (PyStr.startswith n EmptyString) eqn:E.
    + split; [|done]. intros _. apply startswith_spec in E as [post E].
      by exists EmptyString, post.
    + split; [done|]. intros (pre & post & H).
      destruct pre; [|done]. simpl in H.
      apply not_true_iff_false in E. destruct E. apply startswith_spec. by exists post.
  - cbn [PyStr.contains]. destruct (PyStr.startswith n (String c h)) eqn:E.
    + split; [|done]. intros _. apply startswith_spec in E as [post E].
      by exists EmptyString, post.
    + rewrite IH. split.
      * intros (pre & post & ->). by exists (String c pre), post.
      * intros (pre & post & H). destruct pre as [|c' pre].
        -- simpl in H. apply not_true_iff_false in E. destruct E.
           apply startswith_spec. by exists post.
        -- injection H as _ ->. by exists pre, post.
Qed.

Lemma compare_persons_reference cap job :
  (compare_persons cap job).2
  = Reference.identity_score (str_strip cap) (str_strip job).
Proof.
  unfold compare_persons, Reference.identity_score.
  destruct (String.eqb _ _); [done|]. by destruct (_ || _).
Qed.

(** The comparison of two ASCII names, computed. *)
Lemma compare_persons_ascii cap job :
  PyStr.isascii cap = true → PyStr.isascii job = true →
  compare_persons cap job
  = (let a := PyStr.ascii_lower (PyStr.ascii_strip cap) in
     let b := PyStr.ascii_lower (PyStr.ascii_strip job) in
     if String.eqb a b then (true, 1%Q)
     else if PyStr.contains a b || PyStr.contains b a then (true, 0.8%Q)
     else (false, 0%Q)).
Proof.
  intros Hc Hj. unfold compare_persons.
  by rewrite (str_lower_strip_ascii cap Hc), (str_lower_strip_ascii job Hj).
Qed.

(** ** Scoring a pair of the same day and amount *)

Lemma max0_pos x : (0 < x)%Q → max0 x = x.
Proof.
  intros H. unfold max0. by rewrite (proj1 (Qlt_alt 0 x) H).
Qed.

Lemma max0_one x : (x == 1)%Q → (max0 x == 1)%Q.
Proof.
  intros H. rewrite max0_pos; [done|]. by rewrite H.
Qed.

Lemma date_score_same self : 0 < tolerance_days self → (date_score self 0 == 1)%Q.
Proof.
  intros H. unfold date_score. apply max0_one.
  rewrite Z.sub_0_r. apply Qmult_inv_r.
  rewrite inject_Z_zero. lia.
Qed.

Lemma amount_score_same self ad :
  (0 < tolerance_amount self)%Q → (ad == 0)%Q → (amount_score self ad == 1)%Q.
Proof.
  intros H Had. unfold amount_score. apply max0_one.
  rewrite Had. unfold Qminus. rewrite Qplus_0_r. apply Qmult_inv_r.
  intros H0. rewrite H0 in H. by apply Qlt_irrefl in H.
Qed.

Lemma same_day_amount i i' d a p p' card :
  row_date_diff (cap_row_at i d a p card) (job_row_at i' d a p') = 0
  ∧ (row_amount_diff (cap_row_at i d a p card) (job_row_at i' d a p') == 0)%Q.
Proof.
  unfold row_date_diff, row_amount_diff, timedelta_days, cap_row_at, job_row_at.
  cbn [date amount]. split.
  - by rewrite Z.sub_diag.
  - transitivity (Qabs 0); [apply Qabs_wd; ring|reflexivity].
Qed.

Lemma find_matches_single self c j m :
  match_pair self c j = Some [m] →
  find_matches self [c] [j] = Some ([m], {[cap_idx m]}, {[job_idx m]}).
Proof.
  intros Hp. unfold find_matches, candidates. simpl. rewrite Hp. simpl.
  unfold assign. simpl. by rewrite !(right_id_L ∅ (∪)).
Qed.

(** C7, as the code has it.  The comparison is made on the two persons
    with surrounding whitespace stripped: [1.0] when they are equal
    without regard to case, else [0.8] when one occurs in the other
    without regard to case, else [0.0]; that is the rule of the
    specification applied to the stripped persons.  Case and whitespace
    are those of Python's [str.lower] and [str.strip], so the rule holds
    of names that are not ASCII as well.  For a bank row of
    "Aaron Davidson" and an expense row of "Aaron" of the same day and
    amount, under positive tolerances and [check_person] on, the one match
    has identity score [0.8] and quality 0.2·1 + 0.4·1 + 0.4·0.8 = 0.92. *)
Theorem identity_score_rule :
  (∀ cap job,
     let a := str_lower (str_strip cap) in
     let b := str_lower (str_strip job) in
     (a = b → compare_persons cap job = (true, 1%Q))
     ∧ (a ≠ b → substring a b ∨ substring b a →
        compare_persons cap job = (true, 0.8%Q))
     ∧ (a ≠ b → ¬ substring a b → ¬ substring b a →
        compare_persons cap job = (false, 0%Q))
     ∧ (compare_persons cap job).2
       = Reference.identity_score (str_strip cap) (str_strip job))
  ∧ (∀ tol_amount tol_days i i' d a card,
       0 < tol_days → (0 < tol_amount)%Q →
       ∃ m, find_matches (init tol_amount tol_days true)
              [cap_row_at i d a "Aaron Davidson" card]
              [job_row_at i' d a "Aaron"]
            = Some ([m], {[i]}, {[i']})
            ∧ person_match_quality m = 0.8%Q
            ∧ (match_quality m == 0.92)%Q).
Proof.
  split.
  - intros cap job a b. repeat split.
    + intros Hab. unfold compare_persons. fold a b. by rewrite Hab, String.eqb_refl.
    + intros Hab Hsub. unfold compare_persons. fold a b.
      apply String.eqb_neq in Hab. rewrite Hab.
      rewrite <- !contains_spec in Hsub. apply orb_true_iff in Hsub. by rewrite Hsub.
    + intros Hab Hn1 Hn2. unfold compare_persons. fold a b.
      apply String.eqb_neq in Hab. rewrite Hab.
      rewrite <- contains_spec in Hn1, Hn2.
      apply not_true_iff_false in Hn1, Hn2. by rewrite Hn1, Hn2.
    + apply compare_persons_reference.
  - intros tol_amount tol_days i i' d a card Hd Ha.
    set (self := init tol_amount tol_days true).
    set (c := cap_row_at i d a "Aaron Davidson" card).
    set (j := job_row_at i' d a "Aaron").
    destruct (same_day_amount i i' d a "Aaron Davidson" "Aaron" card) as [Hdd Had].
    fold c j in Hdd, Had.
    assert (person_check self c j = (true, 0.8%Q)) as Hcmp.
    { unfold person_check. change (person_compared self c j) with true.
      change (person c) with "Aaron Davidson". change (person j) with "Aaron".
      by rewrite compare_persons_ascii. }
    destruct (match_pair_within self c j) as (m & Hm & Hrec & Hpc & Hq).
    + split; [rewrite Hdd; simpl; lia|]. rewrite Had. by apply Qlt_le_weak.
    + simpl. lia.
    + simpl. intros H0. rewrite H0 in Ha. by apply Qlt_irrefl in Ha.
    + left. by rewrite Hcmp.
    + destruct Hrec as (Hci & Hji & _ & _ & Hmd & Hma).
      exists m. rewrite (find_matches_single _ _ _ _ Hm), Hci, Hji.
      split; [done|].
      assert (person_match_quality m = 0.8%Q) as Hpmq by congruence.
      split; [done|].
      rewrite Hq. unfold weighted. simpl. rewrite Hpmq, Hmd, Hdd.
      rewrite (date_score_same self) by done.
      rewrite (amount_score_same self); [done|done|]. by rewrite Hma.
Qed.

(** ** Identity checking switched off *)

Lemma person_check_off self c j :
  check_person self = false → person_check self c j = (true, 1%Q).
Proof.
  intros H. unfold person_check, person_compared. by rewrite H.
Qed.

Lemma match_pair_off self c j new :
  check_person self = false → within_tolerance self c j →
  match_pair self c j = Some new →
  ∃ m, new = [m] ∧ records_pair m c j
       ∧ match_quality m
         = (date_score self (date_diff m) * 0.3
            + amount_score self (amount_diff m) * 0.7)%Q.
Proof.
  intros Hchk [Hd Ha] Hp.
  destruct (match_pair_inv _ _ _ _ Hp) as [->|(m & -> & Hrec & _ & _ & _ & _ & _ & Hq)].
  - exfalso. revert Hp. unfold match_pair.
    fold (row_date_diff c j). fold (row_amount_diff c j).
    apply Z.leb_le in Hd. apply Qle_bool_iff in Ha. rewrite Hd, Ha. simpl.
    rewrite (person_check_off _ _ _ Hchk). simpl.
    by destruct (_calculate_match_quality _ _ _ _).
  - exists m. split; [done|]. split; [done|].
    unfold weighted in Hq. by rewrite Hchk in Hq.
Qed.

(** X19: with [check_person] off and tolerances that are not zero,
    persons play no part in matching.  A bank row and an expense row
    within both tolerances are matched when they are the only rows,
    whoever the persons are, with quality 0.3·dateScore +
    0.7·amountScore; among more rows
    the pair is a candidate of that quality, left out of the matches only
    when an accepted match holds one of its two records.  For 100.00 on
    day 0 against 101.50 on day 1 with tolerances 2.0 and 2 there is
    exactly one match, of date difference 1, amount difference 1.5 and
    quality 0.325. *)
Theorem identity_off_matches :
  (∀ self c j,
     check_person self = false → within_tolerance self c j →
     tolerance_days self ≠ 0 → ¬ (tolerance_amount self == 0)%Q →
     ∃ m, find_matches self [c] [j] = Some ([m], {[idx c]}, {[idx j]})
          ∧ records_pair m c j
          ∧ match_quality m
            = (date_score self (date_diff m) * 0.3
               + amount_score self (amount_diff m) * 0.7)%Q)
  ∧ (∀ self capitalone_df jobber_df c j fm uc uj,
       check_person self = false → within_tolerance self c j →
       c ∈ capitalone_df → j ∈ jobber_df →
       find_matches self capitalone_df jobber_df = Some (fm, uc, uj) →
       ∃ cands m, candidates self capitalone_df jobber_df = Some cands
          ∧ m ∈ cands ∧ records_pair m c j
          ∧ match_quality m
            = (date_score self (date_diff m) * 0.3
               + amount_score self (amount_diff m) * 0.7)%Q
          ∧ Reference.consumed fm m)
  ∧ (∀ p p' card,
       ∃ m, find_matches (init 2 2 false)
              [cap_row_at 0 0 100 p card] [job_row_at 0 1 101.50 p']
            = Some ([m], {[0%nat]}, {[0%nat]})
            ∧ date_diff m = 1
            ∧ (amount_diff m == 1.5)%Q
            ∧ (match_quality m == 0.325)%Q).
Proof.
  assert (∀ self c j,
     check_person self = false → within_tolerance self c j →
     tolerance_days self ≠ 0 → ¬ (tolerance_amount self == 0)%Q →
     ∃ m, find_matches self [c] [j] = Some ([m], {[idx c]}, {[idx j]})
          ∧ records_pair m c j
          ∧ match_quality m
            = (date_score self (date_diff m) * 0.3
               + amount_score self (amount_diff m) * 0.7)%Q) as Hsingle.
  { intros self c j Hchk Hw Hd Ha.
    destruct (match_pair_within self c j Hw Hd Ha) as (m & Hm & Hrec & _ & Hq);
      [by right|].
    exists m. rewrite (find_matches_single _ _ _ _ Hm).
    destruct Hrec as (Hci & Hji & Hrest). rewrite Hci, Hji.
    split; [done|]. split; [done|].
    unfold weighted in Hq. by rewrite Hchk in Hq. }
  split; [exact Hsingle|]. split.
  - intros self capitalone_df jobber_df c j fm uc uj Hchk Hw Hc Hj Hfm.
    destruct (find_matches_inv _ _ _ _ _ _ Hfm) as (cands & Hcands & Ha).
    pose proof Hcands as Hcol. rewrite candidates_collect in Hcol.
    destruct (collect_Some_inv _ _ _ _ Hcol Hc) as (row_new & Hrow & Hsub1).
    destruct (collect_Some_inv _ _ _ _ Hrow Hj) as (new & Hnew & Hsub2).
    destruct (match_pair_off _ _ _ _ Hchk Hw Hnew) as (m & -> & Hrec & Hq).
    assert (m ∈ cands) as Hm by (apply Hsub1, Hsub2, list_elem_of_singleton; done).
    exists cands, m. do 4 (split; [done|]).
    pose proof (assign_maximal cands m Hm) as Hcons. by rewrite Ha in Hcons.
  - intros p p' card.
    destruct (Hsingle (init 2 2 false) (cap_row_at 0 0 100 p card)
                (job_row_at 0 1 101.50 p')) as (m & Hfm & Hrec & Hq).
    + reflexivity.
    + by vm_compute.
    + by vm_compute.
    + by vm_compute.
    + exists m. split; [exact Hfm|].
      destruct Hrec as (_ & _ & _ & _ & Hd & Ha).
      rewrite Hq, Hd, Ha. by vm_compute.
Qed.

(** C8 fails on the code when a tolerance is zero, by the missing guard
    of C3.  With [check_person] off and [tolerance_days = 0], the least
    value of the days slider, a bank row of "Aaron Davidson" and an
    expense row of "Jerry Morales" of the same day and amount lie within
    both tolerances and differ in nothing but the person.  The pair is
    not matched: scoring it divides zero by zero, and [find_matches] and
    the whole run end in [ZeroDivisionError].  The same happens under
    [tolerance_amount = 0].  With tolerances 2.0 and 2 the same pair is
    the one match, of quality 1. *)
Theorem identity_off_zero_tolerance_raises :
  check_person (init 2 0 false) = false
  ∧ within_tolerance (init 2 0 false) aaron_bank jerry_expense
  ∧ person aaron_bank ≠ person jerry_expense
  ∧ match_pair (init 2 0 false) aaron_bank jerry_expense = None
  ∧ find_matches (init 2 0 false) [aaron_bank] [jerry_expense] = None
  ∧ reconcile (init 2 0 false) [aaron_bank] [jerry_expense] = None
  ∧ within_tolerance (init 0 2 false) aaron_bank jerry_expense
  ∧ find_matches (init 0 2 false) [aaron_bank] [jerry_expense] = None
  ∧ ∃ m, find_matches (init 2 2 false) [aaron_bank] [jerry_expense]
         = Some ([m], {[0%nat]}, {[0%nat]})
         ∧ (match_quality m == 1)%Q.
Proof.
  split; [reflexivity|]. split; [by vm_compute|]. split; [discriminate|].
  split; [by vm_compute|]. split; [by vm_compute|]. split; [by vm_compute|].
  split; [by vm_compute|]. split; [by vm_compute|].
  eexists. split; [by vm_compute|]. simpl. by vm_compute.
Qed.

(** ** The identity resolver *)









(** ** Independence of the person fields when identity checking is off *)

Lemma match_pair_erase self c c' j j' :
  check_person self = false →
  erase_row c = erase_row c' → erase_row j = erase_row j' →
  fmap (M:=list) erase_match <$> match_pair self c j
  = fmap (M:=list) erase_match <$> match_pair self c' j'.
Proof.
  intros Hchk Hc Hj.
  destruct c as [ci cd ca cs cp cn], c' as [ci' cd' ca' cs' cp' cn'],
    j as [ji jd ja js jp jn], j' as [ji' jd' ja' js' jp' jn'].
  injection Hc as -> -> -> ->. injection Hj as -> -> -> ->.
  unfold match_pair. rewrite !(person_check_off _ _ _ Hchk). cbn [idx date amount].
  destruct (_ && _); [|done]. simpl.
  by destruct (_calculate_match_quality _ _ _ _).
Qed.

Lemma collect_related {A A' B C} (f : A → option (list B)) (f' : A' → option (list B))
    (e : B → C) (l : list A) (l' : list A') :
  Forall2 (λ x x', fmap (M:=list) e <$> f x = fmap (M:=list) e <$> f' x') l l' →
  fmap (M:=list) e <$> collect f l = fmap (M:=list) e <$> collect f' l'.
Proof.
  induction 1 as [|x x' l l' Hx _ IH]; [done|]. simpl.
  destruct (f x) as [a|], (f' x') as [a'|]; simpl in *; try done.
  destruct (collect f l) as [b|], (collect f' l') as [b'|]; simpl in *; try done.
  injection Hx as Hx. injection IH as IH. by rewrite !fmap_app, Hx, IH.
Qed.

Lemma erased_Forall2 (l l' : list row) :
  erase_row <$> l = erase_row <$> l' →
  Forall2 (λ r r', erase_row r = erase_row r') l l'.
Proof.
  intros H. apply list_eq_Forall2 in H. by apply Forall2_fmap_1 in H.
Qed.

Lemma candidates_erase self cap1 job1 cap2 job2 :
  check_person self = false →
  erase_row <$> cap1 = erase_row <$> cap2 →
  erase_row <$> job1 = erase_row <$> job2 →
  fmap (M:=list) erase_match <$> candidates self cap1 job1
  = fmap (M:=list) erase_match <$> candidates self cap2 job2.
Proof.
  intros Hchk Hcap%erased_Forall2 Hjob%erased_Forall2.
  rewrite !candidates_collect. apply collect_related.
  eapply Forall2_impl; [exact Hcap|]. intros c c' Hc.
  apply collect_related.
  eapply Forall2_impl; [exact Hjob|]. intros j j' Hj.
  by apply match_pair_erase.
Qed.

Lemma insert_desc_erase x l :
  erase_match <$> insert_desc x l
  = insert_desc (erase_match x) (erase_match <$> l).
Proof.
  induction l as [|y l IH]; [done|]. cbn [insert_desc fmap list_fmap].
  change (quality_lt (erase_match x) (erase_match y)) with (quality_lt x y).
  destruct (quality_lt x y); [|done]. cbn [fmap list_fmap]. by rewrite <- IH.
Qed.

Lemma sort_desc_erase l :
  erase_match <$> sort_desc l = sort_desc (erase_match <$> l).
Proof.
  induction l as [|x l IH]; [done|].
  cbn [sort_desc foldr fmap list_fmap]. rewrite insert_desc_erase.
  fold (sort_desc l). by rewrite IH.
Qed.

Lemma dedup_loop_erase s uc uj acc :
  erase_result (dedup_loop s uc uj acc)
  = dedup_loop (erase_match <$> s) uc uj (erase_match <$> acc).
Proof.
  revert uc uj acc. induction s as [|m s IH]; intros uc uj acc; [done|].
  cbn [dedup_loop fmap list_fmap].
  change (cap_idx (erase_match m)) with (cap_idx m).
  change (job_idx (erase_match m)) with (job_idx m).
  destruct (_ && _); [|apply IH].
  rewrite IH. by rewrite fmap_app.
Qed.

Lemma assign_erase l : erase_result (assign l) = assign (erase_match <$> l).
Proof.
  unfold assign. by rewrite dedup_loop_erase, sort_desc_erase.
Qed.

Lemma find_matches_erase self capitalone_df jobber_df :
  erase_result <$> find_matches self capitalone_df jobber_df
  = assign <$> (fmap (M:=list) erase_match <$> candidates self capitalone_df jobber_df).
Proof.
  unfold find_matches.
  destruct (candidates self capitalone_df jobber_df) as [l|]; [|done].
  simpl. by rewrite assign_erase.
Qed.

Lemma filter_unused_erase (used : gset nat) (rows : list row) :
  filter (λ r, idx r ∉ used) (erase_row <$> rows)
  = erase_row <$> filter (λ r, idx r ∉ used) rows.
Proof.
  induction rows as [|r rows IH]; [done|].
  rewrite fmap_cons, !filter_cons. change (idx (erase_row r)) with (idx r).
  destruct (decide (idx r ∉ used)); [|done]. by rewrite fmap_cons, IH.
Qed.

Lemma generate_report_erase capitalone_df jobber_df r :
  erase_report_row
    <$> generate_report_df capitalone_df jobber_df r.1.1 r.1.2 r.2
  = generate_report_df (erase_row <$> capitalone_df) (erase_row <$> jobber_df)
      (erase_result r).1.1 (erase_result r).1.2 (erase_result r).2.
Proof.
  unfold generate_report_df, erase_result. simpl.
  rewrite !fmap_app, !filter_unused_erase, <- !list_fmap_compose. done.
Qed.

Lemma reconcile_erase self capitalone_df jobber_df :
  fmap (M:=list) erase_report_row <$> reconcile self capitalone_df jobber_df
  = (λ r, generate_report_df (erase_row <$> capitalone_df)
            (erase_row <$> jobber_df) r.1.1 r.1.2 r.2)
      <$> (erase_result <$> find_matches self capitalone_df jobber_df).
Proof.
  unfold reconcile.
  destruct (find_matches self capitalone_df jobber_df) as [[[fm uc] uj]|]; [|done].
  simpl. f_equal. apply (generate_report_erase _ _ (fm, uc, uj)).
Qed.

(** C10: with [check_person] off, two runs on frames that differ only in
    their person fields generate the same candidates, with the same
    qualities, accept the same matches in the same order, return the same
    sets of used ids, and classify every row alike; they also fail alike.
    The results agree on everything but the person fields copied into
    them. *)
Theorem identity_off_noninterference self cap1 job1 cap2 job2 :
  check_person self = false →
  erase_row <$> cap1 = erase_row <$> cap2 →
  erase_row <$> job1 = erase_row <$> job2 →
  fmap (M:=list) erase_match <$> candidates self cap1 job1
  = fmap (M:=list) erase_match <$> candidates self cap2 job2
  ∧ erase_result <$> find_matches self cap1 job1
    = erase_result <$> find_matches self cap2 job2
  ∧ fmap (M:=list) erase_report_row <$> reconcile self cap1 job1
    = fmap (M:=list) erase_report_row <$> reconcile self cap2 job2.
Proof.
  intros Hchk Hcap Hjob.
  pose proof (candidates_erase self cap1 job1 cap2 job2 Hchk Hcap Hjob) as Hc.
  assert (erase_result <$> find_matches self cap1 job1
          = erase_result <$> find_matches self cap2 job2) as Hf.
  { by rewrite !find_matches_erase, Hc. }
  split; [done|]. split; [done|].
  by rewrite !reconcile_erase, Hf, Hcap, Hjob.
Qed.

(** ** The range and the order of the scores *)

Lemma max0_nonneg x : (0 <= max0 x)%Q.
Proof.
  unfold max0. destruct (0 ?= x)%Q eqn:E; try apply Qle_refl.
  apply Qlt_le_weak. by apply Qlt_alt.
Qed.

Lemma max0_le_one x : (x <= 1)%Q → (max0 x <= 1)%Q.
Proof.
  intros H. unfold max0. destruct (0 ?= x)%Q; [lra|done|lra].
Qed.

Lemma max0_mono x y : (x <= y)%Q → (max0 x <= max0 y)%Q.
Proof.
  intros H. unfold max0.
  destruct (0 ?= x)%Q eqn:Ex, (0 ?= y)%Q eqn:Ey;
    rewrite <- ?Qeq_alt, <- ?Qlt_alt, <- ?Qgt_alt in *; lra.
Qed.

Lemma ratio_le_one a b : (0 < b)%Q → (0 <= a)%Q → ((b - a) / b <= 1)%Q.
Proof.
  intros Hb Ha. apply Qle_shift_div_r; [done|]. lra.
Qed.

Lemma ratio_mono a a' b : (0 < b)%Q → (a <= a')%Q → ((b - a') / b <= (b - a) / b)%Q.
Proof.
  intros Hb Ha. unfold Qdiv. apply Qmult_le_compat_r; [lra|].
  apply Qlt_le_weak. by apply Qinv_lt_0_compat.
Qed.

Lemma inject_Z_sub a b : (inject_Z (a - b) == inject_Z a - inject_Z b)%Q.
Proof.
  unfold Z.sub. by rewrite inject_Z_plus, inject_Z_opp.
Qed.

Lemma date_score_range self dd :
  0 < tolerance_days self → 0 ≤ dd → (0 <= date_score self dd <= 1)%Q.
Proof.
  intros Ht Hd. unfold date_score. split; [apply max0_nonneg|].
  apply max0_le_one. rewrite inject_Z_sub. apply ratio_le_one.
  - by rewrite <- (Zlt_Qlt 0).
  - by rewrite <- (Zle_Qle 0).
Qed.

Lemma amount_score_range self ad :
  (0 < tolerance_amount self)%Q → (0 <= ad)%Q → (0 <= amount_score self ad <= 1)%Q.
Proof.
  intros Ht Hd. unfold amount_score. split; [apply max0_nonneg|].
  by apply max0_le_one, ratio_le_one.
Qed.

Lemma date_score_mono self dd dd' :
  0 < tolerance_days self → dd ≤ dd' → (date_score self dd' <= date_score self dd)%Q.
Proof.
  intros Ht Hd. unfold date_score. apply max0_mono.
  rewrite !inject_Z_sub. apply ratio_mono.
  - by rewrite <- (Zlt_Qlt 0).
  - by rewrite <- Zle_Qle.
Qed.

Lemma amount_score_mono self ad ad' :
  (0 < tolerance_amount self)%Q → (ad <= ad')%Q →
  (amount_score self ad' <= amount_score self ad)%Q.
Proof.
  intros Ht Hd. unfold amount_score. by apply max0_mono, ratio_mono.
Qed.

Lemma row_date_diff_nonneg c j : 0 ≤ row_date_diff c j.
Proof. unfold row_date_diff. apply Z.abs_nonneg. Qed.

Lemma row_amount_diff_nonneg c j : (0 <= row_amount_diff c j)%Q.
Proof. unfold row_amount_diff. apply Qabs_nonneg. Qed.

(** A pair that was scored had both tolerances positive. *)
Lemma generated_positive_tolerances self capitalone_df jobber_df m :
  generated self capitalone_df jobber_df m →
  0 < tolerance_days self ∧ (0 < tolerance_amount self)%Q
  ∧ 0 ≤ date_diff m ∧ (0 <= amount_diff m)%Q
  ∧ match_quality m
    = weighted self (date_diff m) (amount_diff m) (person_match_quality m).
Proof.
  intros (c & j & _ & _ & Hp).
  destruct (match_pair_inv _ _ _ _ Hp)
    as [|(m' & [= <-] & Hrec & [Hd Ha] & _ & _ & Hzd & Hza & Hq)]; [done|].
  destruct Hrec as (_ & _ & _ & _ & Hmd & Hma).
  pose proof (row_date_diff_nonneg c j). pose proof (row_amount_diff_nonneg c j).
  split; [lia|]. split; [|rewrite Hmd, Hma at 1; done].
  destruct (Qlt_le_dec 0 (tolerance_amount self)) as [|Hle]; [done|].
  exfalso. apply Hza. apply Qle_antisym; [done|].
  by apply Qle_trans with (row_amount_diff c j).
Qed.

(** X1: every candidate [find_matches] generates, and so every match it
    returns, has a quality between 0 and 1; with [check_person] on, the
    quality is at least 0.32, the share of the least identity score a
    candidate can carry. *)
Theorem quality_range self capitalone_df jobber_df cands :
  candidates self capitalone_df jobber_df = Some cands →
  (∀ m, m ∈ cands → (0 <= match_quality m <= 1)%Q)
  ∧ (∀ m, m ∈ (assign cands).1.1 → (0 <= match_quality m <= 1)%Q)
  ∧ (check_person self = true →
     ∀ m, m ∈ cands → (0.32 <= match_quality m)%Q).
Proof.
  intros Hc.
  assert (∀ m, m ∈ cands →
            (0 <= match_quality m <= 1)%Q
            ∧ (check_person self = true → (0.32 <= match_quality m)%Q)) as Hall.
  { intros m Hm. pose proof (candidates_generated _ _ _ _ _ Hc Hm) as Hgen.
    destruct (generated_positive_tolerances _ _ _ _ Hgen)
      as (Htd & Hta & Hdd & Had & ->).
    pose proof (date_score_range self (date_diff m) Htd Hdd) as [Hd0 Hd1].
    pose proof (amount_score_range self (amount_diff m) Hta Had) as [Ha0 Ha1].
    unfold weighted. destruct (check_person self) eqn:Hchk.
    - destruct (generated_person_ok _ _ _ _ Hchk Hgen) as (_ & [->| ->] & _);
        (split; [split|intros _]); lra.
    - split; [split; lra|done]. }
  split; [|split].
  - intros m Hm. by apply Hall.
  - intros m Hm. by apply Hall, assign_elem.
  - intros Hchk m Hm. by apply Hall.
Qed.

(** X2: a closer pair never scores lower.  Under positive tolerances,
    when neither difference grows and the identity score does not drop,
    [_calculate_match_quality] returns a quality at least as high. *)
Theorem quality_monotone self dd dd' ad ad' pmq pmq' :
  0 < tolerance_days self → (0 < tolerance_amount self)%Q →
  dd ≤ dd' → (ad <= ad')%Q → (pmq' <= pmq)%Q →
  ∃ q q', _calculate_match_quality self dd ad pmq = Some q
          ∧ _calculate_match_quality self dd' ad' pmq' = Some q'
          ∧ (q' <= q)%Q.
Proof.
  intros Htd Hta Hd Ha Hp.
  assert (tolerance_days self ≠ 0) as Hzd by lia.
  assert (¬ (tolerance_amount self == 0)%Q) as Hza by lra.
  exists (weighted self dd ad pmq), (weighted self dd' ad' pmq').
  rewrite !calculate_Some by done. split; [done|]. split; [done|].
  pose proof (date_score_mono self dd dd' Htd Hd).
  pose proof (amount_score_mono self ad ad' Hta Ha).
  unfold weighted. destruct (check_person self); lra.
Qed.

(** ** When [find_matches] raises *)

Lemma collect_None_inv {A B} (f : A → option (list B)) (l : list A) :
  collect f l = None → ∃ x, x ∈ l ∧ f x = None.
Proof.
  induction l as [|y l IH]; [done|]. simpl.
  destruct (f y) as [a|] eqn:Hy.
  - simpl. destruct (collect f l) as [b|]; [done|]. intros _.
    destruct IH as (x & Hx & Hfx); [done|].
    exists x. split; [apply elem_of_cons; by right|done].
  - intros _. exists y. split; [apply elem_of_cons; by left|done].
Qed.

Lemma match_pair_None self c j :
  match_pair self c j = None
  ↔ reaches_scoring self c j
    ∧ (tolerance_days self = 0 ∨ (tolerance_amount self == 0)%Q).
Proof.
  split.
  - intros Hp.
    assert (within_tolerance self c j) as Hw.
    { destruct (decide (row_date_diff c j ≤ tolerance_days self)) as [Hd|Hd].
      - destruct (Qlt_le_dec (tolerance_amount self) (row_amount_diff c j))
          as [Ha|Ha]; [|done].
        rewrite match_pair_outside in Hp; [done|]. intros [_ Ha']. lra.
      - rewrite match_pair_outside in Hp; [done|]. by intros [? _]. }
    assert ((person_check self c j).1 = true ∨ check_person self = false) as Hg.
    { destruct (person_check self c j) as [pm pmq] eqn:Ep. simpl.
      destruct pm; [by left|]. destruct (check_person self) eqn:Hchk; [|by right].
      exfalso. revert Hp. unfold match_pair. rewrite Ep, Hchk. simpl.
      by destruct (_ && _). }
    split; [done|].
    destruct (decide (tolerance_days self = 0)) as [|Hzd]; [by left|]. right.
    destruct (Qeq_dec (tolerance_amount self) 0) as [|Hza]; [done|].
    destruct (match_pair_within self c j Hw Hzd Hza Hg) as (m & Hm & _).
    congruence.
  - intros [[[Hd Ha] Hg] Hz]. unfold match_pair.
    fold (row_date_diff c j). fold (row_amount_diff c j).
    apply Z.leb_le in Hd. apply Qle_bool_iff in Ha. rewrite Hd, Ha. simpl.
    destruct (person_check self c j) as [pm pmq]. simpl in Hg.
    assert (pm || negb (check_person self) = true) as ->.
    { apply orb_true_iff. rewrite negb_true_iff. done. }
    destruct Hz as [Hz|Hz];
      [rewrite calculate_zero_days by done|rewrite calculate_zero_amount by done];
      done.
Qed.

(** X3: [find_matches] raises [ZeroDivisionError] exactly when a
    tolerance is zero and some pair of rows gets as far as the scoring
    call: it lies within both tolerances and is not excluded on identity.
    With both tolerances non-zero, or with no such pair, it returns. *)
Theorem find_matches_raises_iff self capitalone_df jobber_df :
  find_matches self capitalone_df jobber_df = None
  ↔ (tolerance_days self = 0 ∨ (tolerance_amount self == 0)%Q)
    ∧ ∃ c j, c ∈ capitalone_df ∧ j ∈ jobber_df ∧ reaches_scoring self c j.
Proof.
  unfold find_matches. rewrite candidates_collect. split.
  - destruct (collect _ capitalone_df) as [cands|] eqn:Hc; [done|]. intros _.
    destruct (collect_None_inv _ _ Hc) as (c & Hcin & Hrow).
    destruct (collect_None_inv _ _ Hrow) as (j & Hjin & Hp).
    apply match_pair_None in Hp as [Hreach Hz]. split; [done|]. by exists c, j.
  - intros (Hz & c & j & Hcin & Hjin & Hreach).
    rewrite (collect_None _ _ c Hcin); [done|].
    apply (collect_None _ _ j Hjin). by apply match_pair_None.
Qed.

(** ** Empty frames *)

Lemma collect_nothing {A B} (f : A → option (list B)) (l : list A) :
  (∀ x, f x = Some []) → collect f l = Some [].
Proof.
  intros Hf. induction l as [|x l IH]; [done|]. simpl. by rewrite Hf, IH.
Qed.

Lemma candidates_no_target self capitalone_df :
  candidates self capitalone_df [] = Some [].
Proof.
  rewrite candidates_collect. by apply collect_nothing.
Qed.

Lemma filter_unused_all (used : gset nat) (rows : list row) :
  (∀ r, r ∈ rows → idx r ∉ used) → filter (λ r, idx r ∉ used) rows = rows.
Proof.
  induction rows as [|r rows IH]; intros H; [done|]. rewrite filter_cons.
  destruct (decide (idx r ∉ used)) as [|Hn].
  - rewrite IH; [done|]. intros r' Hr'. apply H, elem_of_cons. by right.
  - exfalso. apply Hn, H, elem_of_cons. by left.
Qed.

Lemma reconcile_Some self capitalone_df jobber_df fm uc uj :
  find_matches self capitalone_df jobber_df = Some (fm, uc, uj) →
  reconcile self capitalone_df jobber_df
  = Some (generate_report_df capitalone_df jobber_df fm uc uj).
Proof.
  intros H. unfold reconcile. by rewrite H.
Qed.

(** X4: a run on an empty frame never raises, whatever the tolerances,
    and matches nothing: every row of the other frame is reported
    missing, in frame order. *)
Theorem empty_frame_all_missing self (rows : list row) :
  find_matches self rows [] = Some ([], ∅, ∅)
  ∧ find_matches self [] rows = Some ([], ∅, ∅)
  ∧ reconcile self rows [] = Some (MISSING_IN_JOBBER <$> rows)
  ∧ reconcile self [] rows = Some (MISSING_IN_CAPITALONE <$> rows).
Proof.
  assert (find_matches self rows [] = Some ([], ∅, ∅)) as H1.
  { unfold find_matches. by rewrite candidates_no_target. }
  assert (find_matches self [] rows = Some ([], ∅, ∅)) as H2 by done.
  split; [done|]. split; [done|]. split.
  - rewrite (reconcile_Some _ _ _ _ _ _ H1). unfold generate_report_df.
    rewrite (filter_unused_all ∅ rows) by (intros; apply not_elem_of_empty).
    simpl. by rewrite app_nil_r.
  - rewrite (reconcile_Some _ _ _ _ _ _ H2). unfold generate_report_df.
    by rewrite (filter_unused_all ∅ rows) by (intros; apply not_elem_of_empty).
Qed.

(** ** What the greedy pass gives up *)

Lemma traverse_app s1 s2 accepted final :
  Reference.traverse (s1 ++ s2) accepted final →
  ∃ mid, Reference.traverse s1 accepted mid ∧ Reference.traverse s2 mid final.
Proof.
  revert accepted. induction s1 as [|x s1 IH]; intros accepted H; simpl in H.
  - exists accepted. split; [constructor|done].
  - inversion H as [|? ? ? ? Hn Ht|? ? ? ? Hc Ht]; subst.
    + destruct (IH _ Ht) as (mid & H1 & H2). exists mid.
      split; [by apply Reference.traverse_accept|done].
    + destruct (IH _ Ht) as (mid & H1 & H2). exists mid.
      split; [by apply Reference.traverse_skip|done].
Qed.

(** X5: a candidate [find_matches] leaves out lost to a match it
    accepted: the accepted match holds the candidate's bank row or its
    expense row and has at least the candidate's quality.  In particular
    a candidate of strictly greater quality than every other candidate on
    its two rows is always matched. *)
Theorem rejected_lost_to_better (cands : list match_rec) (m : match_rec) :
  m ∈ cands →
  m ∈ (assign cands).1.1
  ∨ ∃ a, a ∈ (assign cands).1.1
         ∧ (cap_idx a = cap_idx m ∨ job_idx a = job_idx m)
         ∧ (match_quality m <= match_quality a)%Q.
Proof.
  intros Hm. destruct (assign_traverse cands) as (Ht & _).
  pose proof (sort_desc_sorted cands) as Hs.
  assert (m ∈ sort_desc cands) as Hin by by rewrite sort_desc_perm.
  apply list_elem_of_split in Hin as (s1 & s2 & Hsplit).
  rewrite Hsplit in Ht, Hs.
  destruct (traverse_app _ _ _ _ Ht) as (mid & H1 & H2).
  inversion H2 as [|? ? ? ? Hn Ht2|? ? ? ? Hc Ht2]; subst.
  - left. apply (traverse_keeps _ _ _ Ht2), elem_of_app. right.
    by apply list_elem_of_singleton.
  - right. destruct Hc as (a & Ha & Hids). exists a.
    split; [by apply (traverse_keeps _ _ _ Ht2)|]. split; [done|].
    destruct (traverse_elem _ _ _ _ H1 Ha) as [Hnil|Ha1];
      [by apply elem_of_nil in Hnil|].
    apply StronglySorted_app in Hs as (Hcross & _ & _).
    apply (Hcross a m Ha1). apply elem_of_cons. by left.
Qed.

(** ** Persons among the matches *)

Lemma generated_person_match self capitalone_df jobber_df m :
  generated self capitalone_df jobber_df m → person_match m = true.
Proof.
  intros (c & j & _ & _ & Hp).
  destruct (match_pair_inv _ _ _ _ Hp)
    as [|(m' & [= <-] & _ & _ & Hpc & [Hg|Hg] & _)]; [done..|].
  rewrite (person_check_off _ _ _ Hg) in Hpc. congruence.
Qed.

Lemma person_mismatches_zero (matches : list match_rec) :
  (∀ m, m ∈ matches → person_match m = true) → person_mismatches matches = 0%nat.
Proof.
  intros H. unfold person_mismatches.
  induction matches as [|m l IH]; [done|]. rewrite filter_cons.
  destruct (decide (person_match m = false)) as [Hf|_].
  - rewrite H in Hf; [done|]. apply elem_of_cons. by left.
  - apply IH. intros m' Hm'. apply H, elem_of_cons. by right.
Qed.

(** X6: whatever the setting of [check_person], no match [find_matches]
    returns has its person flag cleared.  So [main] always counts zero
    person mismatches, its warning about matches with different people
    is never reached, and in the report every row of a match reads
    "Match" in the person column and is styled green, never "Different
    Person". *)
Theorem no_person_mismatch_reported self capitalone_df jobber_df fm uc uj :
  find_matches self capitalone_df jobber_df = Some (fm, uc, uj) →
  person_mismatches fm = 0%nat
  ∧ ∀ e, e ∈ generate_report_df capitalone_df jobber_df fm uc uj →
      Person_Check e ≠ "⚠️ Different Person"
      ∧ (Status e = "MATCH" →
         Person_Check e = "✅ Match"
         ∧ color_person_check (Person_Check e)
           = "background-color: #90EE90; color: #2E7D32").
Proof.
  intros Hfm.
  destruct (find_matches_facts _ _ _ _ _ _ Hfm) as (Hgen & _).
  assert (∀ m, m ∈ fm → person_match m = true) as Hpm.
  { intros m Hm. by eapply generated_person_match, Hgen. }
  split; [by apply person_mismatches_zero|].
  intros e He. unfold generate_report_df in He.
  rewrite !elem_of_app, !list_elem_of_fmap in He.
  destruct He as [(m & -> & Hm)|[(r & -> & _)|(r & -> & _)]]; simpl;
    [|by split..].
  by rewrite (Hpm m Hm).
Qed.

(** ** The statistics *)

Lemma matches_at_most_rows self capitalone_df jobber_df fm uc uj :
  find_matches self capitalone_df jobber_df = Some (fm, uc, uj) →
  (length fm ≤ length capitalone_df)%nat ∧ (length fm ≤ length jobber_df)%nat.
Proof.
  intros Hfm.
  destruct (find_matches_facts _ _ _ _ _ _ Hfm) as (Hgen & Hn1 & Hn2 & _).
  split.
  - rewrite <- (length_fmap cap_idx fm), <- (length_fmap idx capitalone_df).
    apply submseteq_length, NoDup_submseteq; [done|].
    intros i (m & -> & Hm)%list_elem_of_fmap_1.
    by apply (generated_ids _ _ _ _ (Hgen m Hm)).
  - rewrite <- (length_fmap job_idx fm), <- (length_fmap idx jobber_df).
    apply submseteq_length, NoDup_submseteq; [done|].
    intros i (m & -> & Hm)%list_elem_of_fmap_1.
    by apply (generated_ids _ _ _ _ (Hgen m Hm)).
Qed.

Lemma statistics_None_iff capitalone_df jobber_df (fm : list match_rec) :
  statistics capitalone_df jobber_df fm = None
  ↔ capitalone_df = [] ∧ jobber_df = [].
Proof.
  unfold statistics.
  set (big := Z.max (Z.of_nat (length capitalone_df)) (Z.of_nat (length jobber_df))).
  split.
  - destruct (py_div _ (inject_Z big)) as [q|] eqn:E; [done|]. intros _.
    assert (big = 0) as Hbig.
    { apply inject_Z_zero. destruct (Qeq_dec (inject_Z big) 0) as [|Hn]; [done|].
      by rewrite py_div_Some in E. }
    unfold big in Hbig.
    destruct capitalone_df, jobber_df; simpl in Hbig; try done; lia.
  - intros [-> ->]. done.
Qed.

Lemma statistics_Some_inv capitalone_df jobber_df (fm : list match_rec)
    matched cap_only job_only pct :
  statistics capitalone_df jobber_df fm = Some (matched, cap_only, job_only, pct) →
  matched = Z.of_nat (length fm)
  ∧ cap_only = Z.of_nat (length capitalone_df) - matched
  ∧ job_only = Z.of_nat (length jobber_df) - matched
  ∧ ((length fm ≤ length capitalone_df)%nat → (0 <= pct <= 100)%Q).
Proof.
  unfold statistics.
  set (big := Z.max (Z.of_nat (length capitalone_df)) (Z.of_nat (length jobber_df))).
  destruct (py_div _ (inject_Z big)) as [q|] eqn:E; [|done]. simpl.
  intros [= <- <- <- <-]. apply py_div_Some_inv in E as [Hbig ->].
  rewrite inject_Z_zero in Hbig. do 3 (split; [done|]). intros Hc.
  assert (0 < big) as Hpos by (unfold big in *; lia).
  assert (Z.of_nat (length fm) ≤ big) as Hle by (unfold big; lia).
  assert (0 < inject_Z big)%Q as Hq by (by rewrite <- (Zlt_Qlt 0)).
  assert (0 <= inject_Z (Z.of_nat (length fm)))%Q as H0
    by (rewrite <- (Zle_Qle 0); lia).
  assert (inject_Z (Z.of_nat (length fm)) <= inject_Z big)%Q as H1
    by (by rewrite <- Zle_Qle).
  split.
  - apply Qmult_le_0_compat; [|done]. apply Qle_shift_div_l; [done|]. lra.
  - assert (inject_Z (Z.of_nat (length fm)) / inject_Z big <= 1)%Q as H2.
    { apply Qle_shift_div_r; [done|]. lra. }
    lra.
Qed.

(** X7: the figures [main] shows after a run that returned.  The
    percentage is undefined, a division by zero, exactly when both
    frames are empty.  Otherwise the matched count is the number of
    matches, neither "only in" count is negative although each is
    computed by subtraction, and the percentage lies between 0 and 100. *)
Theorem statistics_sound self capitalone_df jobber_df fm uc uj :
  find_matches self capitalone_df jobber_df = Some (fm, uc, uj) →
  (statistics capitalone_df jobber_df fm = None
   ↔ capitalone_df = [] ∧ jobber_df = [])
  ∧ ∀ matched cap_only job_only pct,
      statistics capitalone_df jobber_df fm = Some (matched, cap_only, job_only, pct) →
      matched = Z.of_nat (length fm)
      ∧ 0 ≤ cap_only ∧ matched + cap_only = Z.of_nat (length capitalone_df)
      ∧ 0 ≤ job_only ∧ matched + job_only = Z.of_nat (length jobber_df)
      ∧ (0 <= pct <= 100)%Q.
Proof.
  intros Hfm. destruct (matches_at_most_rows _ _ _ _ _ _ Hfm) as [Hc Hj].
  split; [apply statistics_None_iff|].
  intros matched cap_only job_only pct Hst.
  destruct (statistics_Some_inv _ _ _ _ _ _ _ Hst) as (-> & -> & -> & Hp).
  split; [done|]. split; [lia|]. split; [lia|]. split; [lia|]. split; [lia|].
  by apply Hp.
Qed.

Lemma report_counts self capitalone_df jobber_df fm uc uj :
  NoDup (idx <$> capitalone_df) → NoDup (idx <$> jobber_df) →
  find_matches self capitalone_df jobber_df = Some (fm, uc, uj) →
  let report := generate_report_df capitalone_df jobber_df fm uc uj in
  (length fm + length (unmatched_source report))%nat = length capitalone_df
  ∧ (length fm + length (unmatched_target report))%nat = length jobber_df.
Proof.
  intros Hcap Hjob Hfm report. unfold report.
  destruct (find_matches_facts _ _ _ _ _ _ Hfm) as (Hgen & Hn1 & Hn2 & -> & ->).
  rewrite report_unmatched_source, report_unmatched_target. split.
  - destruct (side_partition capitalone_df (cap_idx <$> fm)) as (_ & _ & _ & P);
      [done..| |].
    { intros i (m & -> & Hm)%list_elem_of_fmap_1.
      by apply (generated_ids _ _ _ _ (Hgen m Hm)). }
    by rewrite length_fmap in P.
  - destruct (side_partition jobber_df (job_idx <$> fm)) as (_ & _ & _ & P);
      [done..| |].
    { intros i (m & -> & Hm)%list_elem_of_fmap_1.
      by apply (generated_ids _ _ _ _ (Hgen m Hm)). }
    by rewrite length_fmap in P.
Qed.

(** X8: the "only in" figures of [main] and the report agree.  For
    frames with ids unique within each, the count [main] obtains by
    subtracting the matches from the rows of a frame is the number of
    rows the report lists as missing for that frame, and the report has
    one row for every match and every unmatched row. *)
Theorem statistics_agree_with_report self capitalone_df jobber_df fm uc uj :
  NoDup (idx <$> capitalone_df) → NoDup (idx <$> jobber_df) →
  find_matches self capitalone_df jobber_df = Some (fm, uc, uj) →
  let report := generate_report_df capitalone_df jobber_df fm uc uj in
  Z.of_nat (length capitalone_df) - Z.of_nat (length fm)
  = Z.of_nat (length (unmatched_source report))
  ∧ Z.of_nat (length jobber_df) - Z.of_nat (length fm)
    = Z.of_nat (length (unmatched_target report))
  ∧ (length report + length fm)%nat
    = (length capitalone_df + length jobber_df)%nat.
Proof.
  intros Hcap Hjob Hfm report.
  destruct (report_counts _ _ _ _ _ _ Hcap Hjob Hfm) as [Hs Ht].
  fold report in Hs, Ht. split; [lia|]. split; [lia|].
  assert (length report
          = (length fm + length (unmatched_source report)
             + length (unmatched_target report))%nat) as ->; [|lia].
  unfold report. rewrite report_unmatched_source, report_unmatched_target.
  unfold generate_report_df. rewrite !length_app, !length_fmap. lia.
Qed.

(** ** Invariance of the identity comparison *)

(** X9: the comparison of two persons does not depend on the side a
    name comes from: swapping the two names leaves the flag and the
    score as they are, whatever the names.  For names of ASCII
    characters it depends neither on the case of the letters nor on
    whitespace around a name: replacing a name by one that differs in
    case only, or stripping a name, leaves the flag and the score as
    they are. *)
Theorem compare_persons_invariant (a b : string) :
  compare_persons b a = compare_persons a b
  ∧ (∀ a', PyStr.isascii a = true → PyStr.isascii a' = true →
           PyStr.ascii_lower a' = PyStr.ascii_lower a →
           compare_persons a' b = compare_persons a b)
  ∧ (PyStr.isascii a = true →
     compare_persons (str_strip a) b = compare_persons a b).
Proof.
  split; [|split].
  - unfold compare_persons. rewrite String.eqb_sym.
    destruct (String.eqb _ _); [done|]. by rewrite orb_comm.
  - intros a' Hasc Hasc' Ha.
    assert (str_lower (str_strip a') = str_lower (str_strip a)) as Hs.
    { rewrite (str_lower_strip_ascii a' Hasc'), (str_lower_strip_ascii a Hasc).
      by rewrite <- !strip_lower, Ha. }
    unfold compare_persons. by rewrite Hs.
  - intros Hasc.
    assert (str_strip (str_strip a) = str_strip a) as Hs.
    { rewrite (str_strip_ascii a Hasc).
      rewrite (str_strip_ascii _ (isascii_strip a Hasc)). apply strip_idem. }
    unfold compare_persons. by rewrite Hs.
Qed.

(** ** Unmapped cards against missing authors *)

Lemma strip_unknown_card s :
  ∃ t, str_lower (str_strip ("Unknown Card " +:+ s)) = "unknown card" +:+ t.
Proof.
  change ("Unknown Card " +:+ s) with ("Unknown Card" +:+ (" " +:+ s)).
  destruct (str_strip_ascii_prefix "Unknown Card" (" " +:+ s)) as [u ->];
    [done..|].
  destruct (str_lower_ascii_prefix "Unknown Card" u) as [t ->]; [done|].
  by exists t.
Qed.

(** X10: persons that stand for "not known" on both sides match.  An
    expense without an author is loaded with the person "Unknown"; a
    bank row without a card number resolves to "Unknown" and compares
    equal to it, score [1.0]; a bank row whose card is not in the table
    resolves to "Unknown Card" and the card string, which contains
    "Unknown", so the comparison counts a partial match, score [0.8],
    and the pair is not excluded. *)
Theorem unknown_persons_match self (cell : card_cell) :
  compare_persons (get_person_name self CardNA) "Unknown" = (true, 1%Q)
  ∧ (cell ≠ CardNA → card_to_person self !! card_str cell = None →
     compare_persons (get_person_name self cell) "Unknown" = (true, 0.8%Q)).
Proof.
  split.
  { change (get_person_name self CardNA) with "Unknown".
    by rewrite compare_persons_ascii. }
  intros Hna Hl.
  assert (get_person_name self cell = "Unknown Card " +:+ card_str cell) as ->.
  { destruct cell; [done|..]; unfold get_person_name; by rewrite Hl. }
  destruct (strip_unknown_card (card_str cell)) as [t Ht].
  unfold compare_persons. rewrite Ht.
  rewrite (str_lower_strip_ascii "Unknown") by done.
  change (PyStr.ascii_lower (PyStr.ascii_strip "Unknown")) with "unknown".
  change (String.eqb ("unknown card" +:+ t) "unknown") with false.
  change (PyStr.contains "unknown" ("unknown card" +:+ t)) with true.
  by rewrite orb_true_r.
Qed.

(** ** Column detection *)

Lemma last_filter_snoc {A} (p : A → bool) (l : list A) (x : A) :
  last (List.filter p (l ++ [x]))
  = if p x then Some x else last (List.filter p l).
Proof.
  rewrite List.filter_app. simpl. destruct (p x).
  - apply last_snoc.
  - by rewrite app_nil_r.
Qed.

Lemma last_filter_true {A} (p : A → bool) (l : list A) (x : A) :
  last (List.filter p l) = Some x → p x = true ∧ x ∈ l.
Proof.
  intros H%last_Some_elem_of. apply list_elem_of_In, filter_In in H as [H1 H2].
  split; [done|]. by apply list_elem_of_In.
Qed.

Lemma capitalone_scan_spec found col :
  CapitalOne.scan found col
  = {| CapitalOne.date_col :=
         if CapitalOne.takes_date col then Some col else CapitalOne.date_col found;
       CapitalOne.amount_col :=
         if CapitalOne.takes_amount col then Some col else CapitalOne.amount_col found;
       CapitalOne.desc_col :=
         if CapitalOne.takes_desc col then Some col else CapitalOne.desc_col found;
       CapitalOne.card_col :=
         if CapitalOne.takes_card col then Some col else CapitalOne.card_col found |}.
Proof.
  unfold CapitalOne.scan, CapitalOne.takes_card, CapitalOne.takes_desc,
    CapitalOne.takes_amount, CapitalOne.takes_date.
  destruct found as [d a ds c]. simpl.
  destruct (PyStr.contains "transaction" _), (PyStr.contains "date" _),
    (PyStr.contains "debit" _), (PyStr.contains "amount" _),
    (PyStr.contains "description" _), (PyStr.contains "card" _),
    (PyStr.contains "no" _); reflexivity.
Qed.

Lemma capitalone_find_columns_spec cols :
  CapitalOne.find_columns cols
  = {| CapitalOne.date_col := last (List.filter CapitalOne.takes_date cols);
       CapitalOne.amount_col := last (List.filter CapitalOne.takes_amount cols);
       CapitalOne.desc_col := last (List.filter CapitalOne.takes_desc cols);
       CapitalOne.card_col := last (List.filter CapitalOne.takes_card cols) |}.
Proof.
  induction cols as [|col cols IH] using rev_ind; [done|].
  unfold CapitalOne.find_columns in *. rewrite foldl_app. simpl.
  rewrite capitalone_scan_spec, IH, !last_filter_snoc. done.
Qed.

(** X11: the columns [load_capitalone_data] picks.  Each role goes to
    the last column, in sheet order, that takes the branch of that role:
    the date to a label with "transaction" and "date"; the amount to a
    label that is no date column and has "debit" or "amount"; then the
    description; then the card number.  A column with "debit" in its
    label is never the card or description column, and no column gets
    two roles. *)
Theorem capitalone_columns_found (cols : list string) :
  let found := CapitalOne.find_columns cols in
  CapitalOne.date_col found = last (List.filter CapitalOne.takes_date cols)
  ∧ CapitalOne.amount_col found = last (List.filter CapitalOne.takes_amount cols)
  ∧ CapitalOne.desc_col found = last (List.filter CapitalOne.takes_desc cols)
  ∧ CapitalOne.card_col found = last (List.filter CapitalOne.takes_card cols)
  ∧ (∀ col, CapitalOne.date_col found = Some col →
       CapitalOne.amount_col found ≠ Some col
       ∧ CapitalOne.desc_col found ≠ Some col
       ∧ CapitalOne.card_col found ≠ Some col)
  ∧ (∀ col, CapitalOne.amount_col found = Some col →
       CapitalOne.desc_col found ≠ Some col
       ∧ CapitalOne.card_col found ≠ Some col)
  ∧ (∀ col, CapitalOne.desc_col found = Some col →
       CapitalOne.card_col found ≠ Some col)
  ∧ (∀ col, PyStr.contains "debit" (str_lower col) = true →
       CapitalOne.desc_col found ≠ Some col
       ∧ CapitalOne.card_col found ≠ Some col).
Proof.
  intros found. unfold found. rewrite capitalone_find_columns_spec. simpl.
  do 4 (split; [done|]).
  assert (∀ col, last (List.filter CapitalOne.takes_date cols) = Some col →
                 CapitalOne.takes_date col = true) as Hd
    by (intros col H; by apply last_filter_true in H as [? _]).
  assert (∀ col, last (List.filter CapitalOne.takes_amount cols) = Some col →
                 CapitalOne.takes_amount col = true) as Ha
    by (intros col H; by apply last_filter_true in H as [? _]).
  assert (∀ col, last (List.filter CapitalOne.takes_desc cols) = Some col →
                 CapitalOne.takes_desc col = true) as Hs
    by (intros col H; by apply last_filter_true in H as [? _]).
  assert (∀ col, last (List.filter CapitalOne.takes_card cols) = Some col →
                 CapitalOne.takes_card col = true) as Hc
    by (intros col H; by apply last_filter_true in H as [? _]).
  split; [|split; [|split]].
  - intros col H%Hd. repeat split; intros H'; [apply Ha in H'|apply Hs in H'|apply Hc in H'];
      unfold CapitalOne.takes_card, CapitalOne.takes_desc, CapitalOne.takes_amount in H';
      rewrite H in H'; done.
  - intros col H%Ha. split; intros H'; [apply Hs in H'|apply Hc in H'];
      unfold CapitalOne.takes_card, CapitalOne.takes_desc in H';
      rewrite H in H'; simpl in H'; by rewrite ?andb_false_r in H'.
  - intros col H%Hs. intros H'%Hc.
    unfold CapitalOne.takes_card in H'. rewrite H in H'. simpl in H'.
    by rewrite ?andb_false_r in H'.
  - intros col Hdeb. split; intros H'; [apply Hs in H'|apply Hc in H'];
      unfold CapitalOne.takes_card, CapitalOne.takes_desc, CapitalOne.takes_amount in H';
      rewrite Hdeb in H'; destruct (CapitalOne.takes_date col); simpl in H'; done.
Qed.

Lemma jobber_scan_spec found col :
  Jobber.scan found col
  = {| Jobber.date_col :=
         if Jobber.takes_date col then Some col else Jobber.date_col found;
       Jobber.amount_col :=
         if Jobber.takes_amount col then Some col else Jobber.amount_col found;
       Jobber.item_col :=
         if Jobber.takes_item col then Some col else Jobber.item_col found;
       Jobber.entered_by_col :=
         if Jobber.takes_entered_by col then Some col
         else Jobber.entered_by_col found |}.
Proof.
  unfold Jobber.scan, Jobber.takes_entered_by, Jobber.takes_item,
    Jobber.takes_amount, Jobber.takes_date.
  destruct found as [d a i e]. simpl.
  destruct (PyStr.contains "date" _), (PyStr.contains "transaction" _),
    (PyStr.contains "total" _), (PyStr.contains "$" _),
    (PyStr.contains "item" _), (PyStr.contains "name" _),
    (PyStr.contains "entered" _), (PyStr.contains "by" _); reflexivity.
Qed.

Lemma jobber_find_columns_spec cols :
  Jobber.find_columns cols
  = {| Jobber.date_col := last (List.filter Jobber.takes_date cols);
       Jobber.amount_col := last (List.filter Jobber.takes_amount cols);
       Jobber.item_col := last (List.filter Jobber.takes_item cols);
       Jobber.entered_by_col := last (List.filter Jobber.takes_entered_by cols) |}.
Proof.
  induction cols as [|col cols IH] using rev_ind; [done|].
  unfold Jobber.find_columns in *. rewrite foldl_app. simpl.
  rewrite jobber_scan_spec, IH, !last_filter_snoc. done.
Qed.

(** X12: the columns [load_jobber_data] picks.  Each role goes to the
    last column that takes its branch: the date to a label with "date"
    and without "transaction", so a label with "date" in it is never
    the author column; then the amount, the item name and the author.
    No column gets two roles, and the date column of one loader is
    never the date column of the other. *)
Theorem jobber_columns_found (cols : list string) :
  let found := Jobber.find_columns cols in
  Jobber.date_col found = last (List.filter Jobber.takes_date cols)
  ∧ Jobber.amount_col found = last (List.filter Jobber.takes_amount cols)
  ∧ Jobber.item_col found = last (List.filter Jobber.takes_item cols)
  ∧ Jobber.entered_by_col found = last (List.filter Jobber.takes_entered_by cols)
  ∧ (∀ col, Jobber.date_col found = Some col →
       Jobber.amount_col found ≠ Some col
       ∧ Jobber.item_col found ≠ Some col
       ∧ Jobber.entered_by_col found ≠ Some col)
  ∧ (∀ col, Jobber.amount_col found = Some col →
       Jobber.item_col found ≠ Some col
       ∧ Jobber.entered_by_col found ≠ Some col)
  ∧ (∀ col, Jobber.item_col found = Some col →
       Jobber.entered_by_col found ≠ Some col)
  ∧ (∀ col other, Jobber.date_col found = Some col →
       CapitalOne.date_col (CapitalOne.find_columns other) ≠ Some col).
Proof.
  intros found. unfold found. rewrite jobber_find_columns_spec. simpl.
  do 4 (split; [done|]).
  assert (∀ col, last (List.filter Jobber.takes_date cols) = Some col →
                 Jobber.takes_date col = true) as Hd
    by (intros col H; by apply last_filter_true in H as [? _]).
  assert (∀ col, last (List.filter Jobber.takes_amount cols) = Some col →
                 Jobber.takes_amount col = true) as Ha
    by (intros col H; by apply last_filter_true in H as [? _]).
  assert (∀ col, last (List.filter Jobber.takes_item cols) = Some col →
                 Jobber.takes_item col = true) as Hi
    by (intros col H; by apply last_filter_true in H as [? _]).
  assert (∀ col, last (List.filter Jobber.takes_entered_by cols) = Some col →
                 Jobber.takes_entered_by col = true) as He
    by (intros col H; by apply last_filter_true in H as [? _]).
  split; [|split; [|split]].
  - intros col H%Hd. repeat split; intros H'; [apply Ha in H'|apply Hi in H'|apply He in H'];
      unfold Jobber.takes_entered_by, Jobber.takes_item, Jobber.takes_amount in H';
      rewrite H in H'; done.
  - intros col H%Ha. split; intros H'; [apply Hi in H'|apply He in H'];
      unfold Jobber.takes_entered_by, Jobber.takes_item in H';
      rewrite H in H'; simpl in H'; by rewrite ?andb_false_r in H'.
  - intros col H%Hi. intros H'%He.
    unfold Jobber.takes_entered_by in H'. rewrite H in H'. simpl in H'.
    by rewrite ?andb_false_r in H'.
  - intros col other H%Hd. rewrite capitalone_find_columns_spec. simpl.
    intros H'. apply last_filter_true in H' as [H' _].
    unfold Jobber.takes_date in H. unfold CapitalOne.takes_date in H'.
    destruct (PyStr.contains "transaction" _); [|done].
    by rewrite andb_false_r in H.
Qed.

(** ** The rows the loaders hand to the engine *)

Lemma sublist_filter_fmap {A B} (f : A → B) (p : A → bool) (l : list A) :
  sublist (f <$> List.filter p l) (f <$> l).
Proof.
  induction l as [|x l IH]; [done|]. simpl. destruct (p x); csimpl.
  - by apply sublist_skip.
  - by apply sublist_cons.
Qed.

Lemma sublist_omap_fmap {A A' B} (f : A → B) (f' : A' → B) (g : A → option A')
    (l : list A) :
  (∀ x y, g x = Some y → f' y = f x) →
  sublist (f' <$> omap g l) (f <$> l).
Proof.
  intros Hg. induction l as [|x l IH]; [done|]. csimpl.
  destruct (g x) as [y|] eqn:E; csimpl.
  - rewrite (Hg x y E). by apply sublist_skip.
  - by apply sublist_cons.
Qed.

Lemma with_columns_indices (rows : list (nat * (string → cell)))
    (dates : list (option Z)) (amounts : list (option Q)) :
  sublist ((λ x, x.1.1.1) <$> with_columns rows dates amounts) (fst <$> rows).
Proof.
  unfold with_columns. revert dates amounts.
  induction rows as [|r rows IH]; intros [|d dates] [|a amounts]; csimpl;
    try apply sublist_nil_l.
  apply sublist_skip, IH.
Qed.

Lemma indexed_indices (df : sheet) :
  fst <$> indexed df = seq 0 (length (cells df)).
Proof.
  unfold indexed. generalize (cells df). intros l.
  assert (∀ k, fst <$> imap (λ i r, ((k + i)%nat, r)) l = seq k (length l)) as H.
  { induction l as [|x l IH]; intros k; [done|].
    rewrite imap_cons. csimpl. rewrite Nat.add_0_r. f_equal.
    rewrite <- (IH (S k)). f_equal. apply imap_ext. intros i y _. simpl.
    f_equal. lia. }
  apply (H 0%nat).
Qed.

Lemma StronglySorted_sublist {A} (R : relation A) (k l : list A) :
  sublist k l → StronglySorted R l → StronglySorted R k.
Proof.
  induction 1 as [|x k l Hs IH|x k l Hs IH]; intros Hl; [done|..].
  - apply StronglySorted_inv in Hl as [Hl Hx]. constructor; [by apply IH|].
    rewrite Forall_forall in Hx. apply Forall_forall. intros y Hy. apply Hx.
    by eapply elem_of_sublist.
  - apply StronglySorted_inv in Hl as [Hl _]. by apply IH.
Qed.

Lemma seq_sorted k n : StronglySorted lt (seq k n).
Proof.
  revert k. induction n as [|n IH]; intros k; simpl; constructor; [apply IH|].
  apply Forall_forall. intros i Hi%list_elem_of_In%in_seq. lia.
Qed.

Lemma ascending_indices (rows : list row) :
  StronglySorted lt (idx <$> rows) → ascending rows.
Proof.
  unfold ascending. induction rows as [|r rows IH]; [constructor|].
  csimpl. intros [Hs Hr]%StronglySorted_inv. constructor; [by apply IH|].
  rewrite Forall_forall in Hr. apply Forall_forall.
  intros r' Hr'. apply Hr. by apply list_elem_of_fmap_2.
Qed.

Lemma ascending_NoDup (rows : list row) : ascending rows → NoDup (idx <$> rows).
Proof.
  unfold ascending. induction 1 as [|r rows Hs IH Hr]; csimpl; constructor; [|done].
  intros (r' & Heq & Hr')%list_elem_of_fmap_1.
  rewrite Forall_forall in Hr. specialize (Hr r' Hr'). lia.
Qed.

Section LoaderFacts.
Context (to_datetime : list cell → option (list (option Z)))
        (to_numeric : list cell → option (list (option Q)))
        (parse_dates : list cell → option (list (option Z)))
        (str : cell → string).

(** [clean] raises exactly when one of its two conversions does. *)
Lemma clean_None dates_of date_col amount_col df :
  clean to_numeric dates_of date_col amount_col df = None
  ↔ (let kept := dropna_cells date_col amount_col (indexed df) in
     dates_of ((λ r, r.2 date_col) <$> kept) = None
     ∨ to_numeric ((λ r, r.2 amount_col) <$> kept) = None).
Proof.
  unfold clean. simpl.
  destruct (dates_of _) as [dates|]; simpl; [|by split; [left|]].
  destruct (to_numeric _) as [amounts|]; simpl; [|by split; [right|]].
  split; [done|]. by intros [|].
Qed.

Lemma clean_indices dates_of date_col amount_col df cleaned :
  clean to_numeric dates_of date_col amount_col df = Some cleaned →
  sublist ((λ x, x.1.1.1) <$> cleaned) (seq 0 (length (cells df))).
Proof.
  unfold clean.
  destruct (dates_of _) as [dates|]; [|done]. simpl.
  destruct (to_numeric _) as [amounts|]; [|done]. simpl. intros [= <-].
  unfold positive_amounts, dropna_converted, with_columns, dropna_cells.
  rewrite <- indexed_indices.
  etrans; [apply sublist_filter_fmap|].
  etrans; [apply (sublist_omap_fmap (λ x, x.1.1.1))|].
  { intros [[r d] a] y. simpl. destruct d, a; simpl; [|done..]. by intros [= <-]. }
  etrans; [apply with_columns_indices|].
  apply sublist_filter_fmap.
Qed.

Lemma clean_positive dates_of date_col amount_col df cleaned x :
  clean to_numeric dates_of date_col amount_col df = Some cleaned →
  x ∈ cleaned → (0 < x.2)%Q.
Proof.
  unfold clean.
  destruct (dates_of _) as [dates|]; [|done]. simpl.
  destruct (to_numeric _) as [amounts|]; [|done]. simpl. intros [= <-].
  unfold positive_amounts. intros H%list_elem_of_In%filter_In.
  destruct H as [_ H]. apply negb_true_iff in H.
  apply Qnot_le_lt. intros Hle. apply Qle_bool_iff in Hle. congruence.
Qed.

(** What both loaders guarantee of a frame built from cleaned rows. *)
Lemma loaded_rows_fit dates_of date_col amount_col df cleaned
    (build : nat * (string → cell) * Z * Q → row) :
  clean to_numeric dates_of date_col amount_col df = Some cleaned →
  (∀ x, idx (build x) = x.1.1.1 ∧ amount (build x) = x.2) →
  let out := build <$> cleaned in
  ascending out
  ∧ NoDup (idx <$> out)
  ∧ (∀ r, r ∈ out → (0 < amount r)%Q ∧ (idx r < length (cells df))%nat)
  ∧ (length out ≤ length (cells df))%nat.
Proof.
  intros Hclean Hb out.
  assert (idx <$> out = (λ x, x.1.1.1) <$> cleaned) as Hidx.
  { unfold out. rewrite <- list_fmap_compose. apply list_fmap_ext.
    intros i x _. simpl. apply Hb. }
  pose proof (clean_indices dates_of date_col amount_col df cleaned Hclean) as Hsub.
  rewrite <- Hidx in Hsub.
  assert (ascending out) as Hasc.
  { apply ascending_indices.
    eapply StronglySorted_sublist; [exact Hsub|apply seq_sorted]. }
  split; [done|]. split; [by apply ascending_NoDup|]. split.
  - intros r Hr. split.
    + unfold out in Hr. apply list_elem_of_fmap_1 in Hr as (x & -> & Hx).
      destruct (Hb x) as [_ ->]. by eapply clean_positive.
    + assert (idx r ∈ seq 0 (length (cells df))) as Hin.
      { eapply elem_of_sublist; [|exact Hsub]. by apply list_elem_of_fmap_2. }
      apply list_elem_of_In, in_seq in Hin. lia.
  - apply sublist_length in Hsub. by rewrite length_fmap, length_seq in Hsub.
Qed.

(** A frame a loader returns is built, row by row, from the cleaned rows
    of the sheet. *)
Lemma load_capitalone_data_Some self df out :
  load_capitalone_data to_datetime to_numeric str self df = Some out →
  ∃ date_col amount_col cleaned build,
    clean to_numeric to_datetime date_col amount_col df = Some cleaned
    ∧ out = build <$> cleaned
    ∧ (∀ x, idx (build x) = x.1.1.1 ∧ amount (build x) = x.2)
    ∧ (CapitalOne.card_col (CapitalOne.find_columns (columns df)) = None →
       ∀ x, person (build x) = "N/A" ∧ card_no (build x) = Some "N/A").
Proof.
  unfold load_capitalone_data, try_except. simpl.
  destruct (CapitalOne.date_col _) as [date_col|]; [|done].
  destruct (CapitalOne.amount_col _) as [amount_col|]; [|done].
  destruct (clean _ _ _ _ _) as [cleaned|] eqn:Hclean; [|done].
  intros [= <-]. eexists date_col, amount_col, cleaned, _.
  split; [exact Hclean|]. split; [reflexivity|]. split; [done|].
  by intros ->.
Qed.

Lemma load_jobber_data_Some df out :
  load_jobber_data to_numeric parse_dates str df = Some out →
  ∃ date_col amount_col cleaned build,
    clean to_numeric parse_dates date_col amount_col df = Some cleaned
    ∧ out = build <$> cleaned
    ∧ (∀ x, idx (build x) = x.1.1.1 ∧ amount (build x) = x.2)
    ∧ (Jobber.entered_by_col (Jobber.find_columns (columns df)) = None →
       ∀ x, person (build x) = "N/A").
Proof.
  unfold load_jobber_data, try_except. simpl.
  destruct (Jobber.date_col _) as [date_col|]; [|done].
  destruct (Jobber.amount_col _) as [amount_col|]; [|done].
  destruct (clean _ _ _ _ _) as [cleaned|] eqn:Hclean; [|done].
  intros [= <-]. eexists date_col, amount_col, cleaned, _.
  split; [exact Hclean|]. split; [reflexivity|]. split; [done|].
  by intros ->.
Qed.

(** X13: the frame [load_capitalone_data] returns fits the engine.  Its
    rows keep the sheet's order and index labels, so the labels ascend
    and no two rows share one; every amount is positive; and there are
    at most as many rows as the sheet has. *)
Theorem capitalone_rows_fit self df out :
  load_capitalone_data to_datetime to_numeric str self df = Some out →
  ascending out
  ∧ NoDup (idx <$> out)
  ∧ (∀ r, r ∈ out → (0 < amount r)%Q ∧ (idx r < length (cells df))%nat)
  ∧ (length out ≤ length (cells df))%nat.
Proof.
  intros (date_col & amount_col & cleaned & build & Hclean & -> & Hb & _)
    %load_capitalone_data_Some.
  by eapply loaded_rows_fit.
Qed.

(** X14: the frame [load_jobber_data] returns fits the engine in the
    same way: ascending, pairwise distinct index labels of the sheet,
    positive amounts, no more rows than the sheet. *)
Theorem jobber_rows_fit df out :
  load_jobber_data to_numeric parse_dates str df = Some out →
  ascending out
  ∧ NoDup (idx <$> out)
  ∧ (∀ r, r ∈ out → (0 < amount r)%Q ∧ (idx r < length (cells df))%nat)
  ∧ (length out ≤ length (cells df))%nat.
Proof.
  intros (date_col & amount_col & cleaned & build & Hclean & -> & Hb & _)
    %load_jobber_data_Some.
  by eapply loaded_rows_fit.
Qed.

(** X15: when a loader returns [None].  [load_capitalone_data] does so
    in exactly two cases: a required column is not found, that is, no
    label takes the date branch or none takes the amount branch of its
    loop; or both are found and one of the two conversions, applied to
    its column of the rows that [dropna] keeps, raises, which the
    handler of the loader answers with [None].  [load_jobber_data]
    likewise, with its own branches and its own date parsing.  Missing
    description, card, item or author columns never make a loader
    fail. *)
Theorem loaders_fail_iff self df :
  (load_capitalone_data to_datetime to_numeric str self df = None
   ↔ List.filter CapitalOne.takes_date (columns df) = []
     ∨ List.filter CapitalOne.takes_amount (columns df) = []
     ∨ ∃ date_col amount_col,
         last (List.filter CapitalOne.takes_date (columns df)) = Some date_col
         ∧ last (List.filter CapitalOne.takes_amount (columns df)) = Some amount_col
         ∧ let kept := dropna_cells date_col amount_col (indexed df) in
           to_datetime ((λ r, r.2 date_col) <$> kept) = None
           ∨ to_numeric ((λ r, r.2 amount_col) <$> kept) = None)
  ∧ (load_jobber_data to_numeric parse_dates str df = None
     ↔ List.filter Jobber.takes_date (columns df) = []
       ∨ List.filter Jobber.takes_amount (columns df) = []
       ∨ ∃ date_col amount_col,
           last (List.filter Jobber.takes_date (columns df)) = Some date_col
           ∧ last (List.filter Jobber.takes_amount (columns df)) = Some amount_col
           ∧ let kept := dropna_cells date_col amount_col (indexed df) in
             parse_dates ((λ r, r.2 date_col) <$> kept) = None
             ∨ to_numeric ((λ r, r.2 amount_col) <$> kept) = None).
Proof.
  split.
  - unfold load_capitalone_data, try_except.
    rewrite capitalone_find_columns_spec. cbn [CapitalOne.date_col CapitalOne.amount_col].
    rewrite <- !last_None.
    destruct (last (List.filter CapitalOne.takes_date _)) as [date_col|];
      [|split; [by left|done]].
    destruct (last (List.filter CapitalOne.takes_amount _)) as [amount_col|];
      [|split; [right; by left|done]].
    destruct (clean _ _ _ _ _) as [cleaned|] eqn:Hclean.
    + split; [done|]. intros [|[|(d & a & [= <-] & [= <-] & Hr)]]; [done..|].
      apply clean_None in Hr. congruence.
    + split; [|done]. intros _. right. right. exists date_col, amount_col.
      split; [done|]. split; [done|]. by apply clean_None.
  - unfold load_jobber_data, try_except.
    rewrite jobber_find_columns_spec. cbn [Jobber.date_col Jobber.amount_col].
    rewrite <- !last_None.
    destruct (last (List.filter Jobber.takes_date _)) as [date_col|];
      [|split; [by left|done]].
    destruct (last (List.filter Jobber.takes_amount _)) as [amount_col|];
      [|split; [right; by left|done]].
    destruct (clean _ _ _ _ _) as [cleaned|] eqn:Hclean.
    + split; [done|]. intros [|[|(d & a & [= <-] & [= <-] & Hr)]]; [done..|].
      apply clean_None in Hr. congruence.
    + split; [|done]. intros _. right. right. exists date_col, amount_col.
      split; [done|]. split; [done|]. by apply clean_None.
Qed.

End LoaderFacts.

(** ** A sheet without its person column *)

Lemma match_pair_reaches self c j new :
  reaches_scoring self c j → match_pair self c j = Some new →
  ∃ m, new = [m] ∧ records_pair m c j
       ∧ (person_match m, person_match_quality m) = person_check self c j.
Proof.
  intros [[Hd Ha] Hg] Hp.
  destruct (match_pair_inv _ _ _ _ Hp) as [->|(m & -> & Hrec & _ & Hpc & _)].
  - exfalso. revert Hp. unfold match_pair.
    fold (row_date_diff c j). fold (row_amount_diff c j).
    apply Z.leb_le in Hd. apply Qle_bool_iff in Ha. rewrite Hd, Ha. simpl.
    destruct (person_check self c j) as [pm pmq]. simpl in Hg.
    assert (pm || negb (check_person self) = true) as ->.
    { apply orb_true_iff. rewrite negb_true_iff. done. }
    by destruct (_calculate_match_quality _ _ _ _).
  - by exists m.
Qed.

Lemma person_check_not_applicable self c j :
  person c = "N/A" ∨ person j = "N/A" → person_check self c j = (true, 1%Q).
Proof.
  intros H. unfold person_check, person_compared.
  destruct H as [-> | ->]; simpl; by rewrite ?andb_false_r.
Qed.

Section Pipeline.
Context (to_datetime : list cell → option (list (option Z)))
        (to_numeric : list cell → option (list (option Q)))
        (parse_dates : list cell → option (list (option Z)))
        (str : cell → string).

Lemma capitalone_no_card self df out :
  CapitalOne.card_col (CapitalOne.find_columns (columns df)) = None →
  load_capitalone_data to_datetime to_numeric str self df = Some out →
  ∀ r, r ∈ out → person r = "N/A" ∧ card_no r = Some "N/A".
Proof.
  intros Hcard (date_col & amount_col & cleaned & build & _ & -> & _ & Hna)
    %load_capitalone_data_Some.
  intros r (x & -> & _)%list_elem_of_fmap_1. by apply Hna.
Qed.

Lemma jobber_no_author df out :
  Jobber.entered_by_col (Jobber.find_columns (columns df)) = None →
  load_jobber_data to_numeric parse_dates str df = Some out →
  ∀ r, r ∈ out → person r = "N/A".
Proof.
  intros Hauthor (date_col & amount_col & cleaned & build & _ & -> & _ & Hna)
    %load_jobber_data_Some.
  intros r (x & -> & _)%list_elem_of_fmap_1. by apply Hna.
Qed.

(** X16: a sheet without its person column switches the person check
    off for the run, as the loaders warn.  When the bank sheet has no
    card column, or the expense sheet no author column, every row of
    that frame has the person "N/A"; then, also with [check_person] on,
    no pair is compared or excluded on identity: every pair of rows
    within the tolerances is a candidate with identity score [1.0]. *)
Theorem missing_person_column_skips_check self cap_sheet job_sheet cap job cands :
  load_capitalone_data to_datetime to_numeric str self cap_sheet = Some cap →
  load_jobber_data to_numeric parse_dates str job_sheet = Some job →
  CapitalOne.card_col (CapitalOne.find_columns (columns cap_sheet)) = None
  ∨ Jobber.entered_by_col (Jobber.find_columns (columns job_sheet)) = None →
  candidates self cap job = Some cands →
  ∀ c j, c ∈ cap → j ∈ job →
    person_compared self c j = false
    ∧ (within_tolerance self c j →
       ∃ m, m ∈ cands ∧ records_pair m c j
            ∧ person_match m = true ∧ person_match_quality m = 1%Q).
Proof.
  intros Hcap Hjob Hmiss Hcands c j Hc Hj.
  assert (person c = "N/A" ∨ person j = "N/A") as Hna.
  { destruct Hmiss as [Hm|Hm].
    - left. by apply (capitalone_no_card _ _ _ Hm Hcap).
    - right. by apply (jobber_no_author _ _ Hm Hjob). }
  pose proof (person_check_not_applicable self c j Hna) as Hpc.
  split.
  { unfold person_compared. destruct Hna as [-> | ->]; simpl;
      by rewrite ?andb_false_r. }
  intros Hw.
  pose proof Hcands as Hcol. rewrite candidates_collect in Hcol.
  destruct (collect_Some_inv _ _ _ _ Hcol Hc) as (row_new & Hrow & Hsub1).
  destruct (collect_Some_inv _ _ _ _ Hrow Hj) as (new & Hnew & Hsub2).
  destruct (match_pair_reaches self c j new) as (m & -> & Hrec & Hm); [|done|].
  { split; [done|]. left. by rewrite Hpc. }
  exists m. split; [apply Hsub1, Hsub2, list_elem_of_singleton; done|].
  split; [done|]. rewrite Hpc in Hm. by injection Hm as -> ->.
Qed.

(** X17: the figures and the report of a completed run agree, for any
    two sheets.  The matched count is the number of match rows of the
    report, each "only in" count the number of rows reported missing
    for that ledger, and the report has exactly one row per match and
    per unmatched record; no id is listed twice on a side; the
    percentage lies between 0 and 100.  The loaders establish the
    uniqueness of ids this rests on. *)
Theorem run_completed_consistent self cap_sheet job_sheet report
    matched cap_only job_only pct :
  run to_datetime to_numeric parse_dates str self cap_sheet job_sheet
  = Completed report (matched, cap_only, job_only, pct) →
  matched = Z.of_nat (length (matches_of report))
  ∧ cap_only = Z.of_nat (length (unmatched_source report))
  ∧ job_only = Z.of_nat (length (unmatched_target report))
  ∧ Z.of_nat (length report) = matched + cap_only + job_only
  ∧ NoDup (matched_source report ++ unmatched_source report)
  ∧ NoDup (matched_target report ++ unmatched_target report)
  ∧ (0 <= pct <= 100)%Q.
Proof.
  unfold run.
  destruct (load_capitalone_data _ _ _ _ _) as [cap|] eqn:Hcap; [|done].
  destruct (load_jobber_data _ _ _ _) as [job|] eqn:Hjob; [|done].
  destruct (find_matches self cap job) as [[[fm uc] uj]|] eqn:Hfm; [|done].
  destruct (statistics cap job fm) as [stats|] eqn:Hst; [|done].
  intros [= <- ->].
  assert (NoDup (idx <$> cap)) as Hn1.
  { apply load_capitalone_data_Some in Hcap
      as (date_col & amount_col & cleaned & build & Hclean & -> & Hb & _).
    by eapply loaded_rows_fit. }
  assert (NoDup (idx <$> job)) as Hn2.
  { apply load_jobber_data_Some in Hjob
      as (date_col & amount_col & cleaned & build & Hclean & -> & Hb & _).
    by eapply loaded_rows_fit. }
  destruct (statistics_Some_inv _ _ _ _ _ _ _ Hst) as (-> & Hc & Hj & Hp).
  destruct (matches_at_most_rows _ _ _ _ _ _ Hfm) as [Hle _].
  apply Hp in Hle. clear Hp.
  destruct (report_counts _ _ _ _ _ _ Hn1 Hn2 Hfm) as [Hrc Hrj].
  destruct (find_matches_facts _ _ _ _ _ _ Hfm) as (Hgen & Hd1 & Hd2 & Huc & Huj).
  set (report := generate_report_df cap job fm uc uj) in *.
  assert (matches_of report = fm) as Hmo by apply report_matches_of.
  rewrite Hmo. split; [done|]. split; [lia|]. split; [lia|]. split.
  { unfold report at 1. unfold generate_report_df.
    rewrite !length_app, !length_fmap.
    fold (generate_report_df cap job fm uc uj) in *.
    pose proof (report_unmatched_source cap job fm uc uj) as E1.
    pose proof (report_unmatched_target cap job fm uc uj) as E2.
    fold report in E1, E2.
    apply (f_equal length) in E1, E2. rewrite length_fmap in E1, E2. lia. }
  split; [|split; [|done]].
  - unfold report. rewrite report_matched_source, report_unmatched_source. subst uc.
    destruct (side_partition cap (cap_idx <$> fm)) as (_ & Hdis & Hnd & _);
      [done..| |].
    { intros i (m & -> & Hm)%list_elem_of_fmap_1.
      by apply (generated_ids _ _ _ _ (Hgen m Hm)). }
    apply NoDup_app. split; [done|]. split; [|done].
    intros i Hi Hi'. by apply (Hdis i).
  - unfold report. rewrite report_matched_target, report_unmatched_target. subst uj.
    destruct (side_partition job (job_idx <$> fm)) as (_ & Hdis & Hnd & _);
      [done..| |].
    { intros i (m & -> & Hm)%list_elem_of_fmap_1.
      by apply (generated_ids _ _ _ _ (Hgen m Hm)). }
    apply NoDup_app. split; [done|]. split; [|done].
    intros i Hi Hi'. by apply (Hdis i).
Qed.

(** X18: how a run of [main] on two sheets ends.  Nothing is computed
    exactly when a loader returns [None].  Otherwise the run
    raises [ZeroDivisionError] in exactly two cases: a tolerance is zero
    and some pair of loaded rows reaches the scoring call, or both
    loaded frames are empty and the percentage divides by zero.  In
    every other case it completes. *)
Theorem run_outcome self cap_sheet job_sheet :
  let loaded_cap := load_capitalone_data to_datetime to_numeric str self cap_sheet in
  let loaded_job := load_jobber_data to_numeric parse_dates str job_sheet in
  let outcome := run to_datetime to_numeric parse_dates str self cap_sheet job_sheet in
  (outcome = NotLoaded ↔ loaded_cap = None ∨ loaded_job = None)
  ∧ (outcome = Raised
     ↔ ∃ cap job, loaded_cap = Some cap ∧ loaded_job = Some job
         ∧ (find_matches self cap job = None ∨ (cap = [] ∧ job = []))).
Proof.
  intros loaded_cap loaded_job outcome. unfold outcome, run.
  fold loaded_cap loaded_job.
  destruct loaded_cap as [cap|], loaded_job as [job|].
  2-4: (split; [split; [intros _; first [by left|by right]|done]|];
        split; [done|]; intros (? & ? & ? & ? & _); done).
  split.
  { split; [|intros [|]; done].
    destruct (find_matches self cap job) as [[[fm uc] uj]|]; [|done].
    by destruct (statistics cap job fm). }
  destruct (find_matches self cap job) as [[[fm uc] uj]|] eqn:Hfm.
  - destruct (statistics cap job fm) as [stats|] eqn:Hst.
    + split; [done|].
      intros (cap' & job' & [= <-] & [= <-] & [H|[-> ->]]); [congruence|].
      unfold statistics in Hst. by rewrite py_div_None in Hst.
    + split; [|done]. intros _. exists cap, job. split; [done|]. split; [done|].
      right. by apply (statistics_None_iff cap job fm).
  - split; [|done]. intros _. exists cap, job. split; [done|]. split; [done|].
    by left.
Qed.

End Pipeline.

End Engine.

(** ** The two methods on ASCII text

    The ASCII functions, which leave every other character as it is,
    have everything that is known of [str.lower] and [str.strip]; beyond
    ASCII they are not Python's methods.  The examples below are worked
    with them: the names in the examples are ASCII, and on ASCII names
    every reading of the two methods, Python's own among them, gives the
    comparison the ASCII functions give. *)
#[export] Instance ascii_text : StrMethods := {|
  str_lower := PyStr.ascii_lower;
  str_strip := PyStr.ascii_strip;
  str_lower_ascii := λ _ _, eq_refl;
  str_strip_ascii := λ _ _, eq_refl;
  str_lower_ascii_prefix := λ a t _, ascii_lower_prefix a t;
  str_strip_ascii_prefix := λ a t _, ascii_strip_prefix a t
|}.

Lemma compare_persons_ascii_text (py : StrMethods) (cap job : string) :
  PyStr.isascii cap = true → PyStr.isascii job = true →
  @compare_persons py cap job = @compare_persons ascii_text cap job.
Proof.
  intros Hc Hj. by rewrite !compare_persons_ascii.
Qed.

(** ** Worked examples *)

Lemma reconciliation_partitions_witness :
  ∃ report,
    reconcile (init 2 2 true) two_sources one_target = Some report
    ∧ matched_source report = [1%nat]
    ∧ unmatched_source report = [0%nat]
    ∧ (length (matches_of report) + length (unmatched_source report))%nat
      = length two_sources
    ∧ (length (matches_of report) + length (unmatched_target report))%nat
      = length one_target.
Proof.
  destruct (reconcile (init 2 2 true) two_sources one_target) as [report|] eqn:E;
    [|by vm_compute in E].
  exists report. split; [done|].
  destruct (reconciliation_partitions (init 2 2 true) two_sources one_target report)
    as ((_ & _ & _ & _ & Hs) & (_ & _ & _ & _ & Ht)).
  - apply (bool_decide_unpack _). vm_compute. exact I.
  - apply (bool_decide_unpack _). vm_compute. exact I.
  - exact E.
  - split; [|split; [|split; [exact Hs|exact Ht]]].
    + vm_compute in E. by injection E as <-.
    + vm_compute in E. by injection E as <-.
Defined.

Lemma tolerance_containment_witness :
  ∃ fm uc uj,
    find_matches (init 2 2 true) two_sources one_target = Some (fm, uc, uj)
    ∧ length fm = 1%nat
    ∧ ∀ m, m ∈ fm → contained (init 2 2 true) two_sources one_target m.
Proof.
  destruct (find_matches (init 2 2 true) two_sources one_target)
    as [[[fm uc] uj]|] eqn:E; [|by vm_compute in E].
  exists fm, uc, uj. split; [done|]. split.
  - vm_compute in E. by injection E as <- _ _.
  - exact (proj2 (proj2 (tolerance_containment _ _ _ _ _ _ E))).
Defined.

Lemma identity_mismatch_excludes_witness :
  check_person (init 2 2 true) = true
  ∧ confirmed_different (person aaron_bank) (person jerry_expense)
  ∧ match_pair (init 2 2 true) aaron_bank jerry_expense = Some [].
Proof.
  assert (confirmed_different (person aaron_bank) (person jerry_expense)) as Hd.
  { split; [discriminate|split; [discriminate|reflexivity]]. }
  split; [reflexivity|]. split; [exact Hd|].
  exact (proj1 (identity_mismatch_excludes (init 2 2 true) [] [] eq_refl) _ _ Hd).
Defined.

Lemma identity_off_noninterference_witness :
  check_person (init 2 2 false) = false
  ∧ erase_result
      <$> find_matches (init 2 2 false)
            [cap_row_at 0 0 100 "Aaron Davidson" "9265"]
            [job_row_at 0 1 101.50 "Jerry Morales"]
    = erase_result
      <$> find_matches (init 2 2 false)
            [cap_row_at 0 0 100 "Unknown" "nan"]
            [job_row_at 0 1 101.50 "N/A"].
Proof.
  split; [reflexivity|].
  exact (proj1 (proj2 (identity_off_noninterference (init 2 2 false)
    [cap_row_at 0 0 100 "Aaron Davidson" "9265"]
    [job_row_at 0 1 101.50 "Jerry Morales"]
    [cap_row_at 0 0 100 "Unknown" "nan"]
    [job_row_at 0 1 101.50 "N/A"] eq_refl eq_refl eq_refl))).
Defined.

Lemma quality_range_witness :
  ∃ cands,
    candidates (init 2 2 true) two_sources one_target = Some cands
    ∧ length cands = 1%nat
    ∧ ∀ m, m ∈ cands → (0 <= match_quality m <= 1)%Q.
Proof.
  destruct (candidates (init 2 2 true) two_sources one_target) as [cands|] eqn:E;
    [|by vm_compute in E].
  exists cands. split; [done|]. split.
  - vm_compute in E. by injection E as <-.
  - exact (proj1 (quality_range _ _ _ _ E)).
Defined.

Lemma quality_monotone_witness :
  ∃ q q', _calculate_match_quality (init 2 2 true) 0 0.5 1 = Some q
          ∧ _calculate_match_quality (init 2 2 true) 1 1.5 0.8 = Some q'
          ∧ (q' <= q)%Q.
Proof.
  apply quality_monotone; by vm_compute.
Defined.

Lemma rejected_lost_to_better_witness :
  ∃ cands m,
    candidates (init 2 2 false) two_sources one_target = Some cands
    ∧ m ∈ cands
    ∧ (m ∈ (assign cands).1.1
       ∨ ∃ a, a ∈ (assign cands).1.1
              ∧ (cap_idx a = cap_idx m ∨ job_idx a = job_idx m)
              ∧ (match_quality m <= match_quality a)%Q).
Proof.
  destruct (candidates (init 2 2 false) two_sources one_target) as [cands|] eqn:E;
    [|by vm_compute in E].
  destruct cands as [|m cands]; [by vm_compute in E|].
  exists (m :: cands), m. split; [done|].
  assert (m ∈ m :: cands) as Hm by (apply elem_of_cons; by left).
  split; [done|]. exact (rejected_lost_to_better _ _ Hm).
Defined.

Lemma no_person_mismatch_reported_witness :
  ∃ fm uc uj,
    find_matches (init 2 2 false) [aaron_bank] [jerry_expense] = Some (fm, uc, uj)
    ∧ length fm = 1%nat
    ∧ person_mismatches fm = 0%nat.
Proof.
  destruct (find_matches (init 2 2 false) [aaron_bank] [jerry_expense])
    as [[[fm uc] uj]|] eqn:E; [|by vm_compute in E].
  exists fm, uc, uj. split; [done|]. split.
  - vm_compute in E. by injection E as <- _ _.
  - exact (proj1 (no_person_mismatch_reported _ _ _ _ _ _ E)).
Defined.

Lemma statistics_sound_witness :
  ∃ fm uc uj,
    find_matches (init 2 2 true) two_sources one_target = Some (fm, uc, uj)
    ∧ ∃ pct, statistics two_sources one_target fm = Some (1, 1, 0, pct)
             ∧ (0 <= pct <= 100)%Q.
Proof.
  destruct (find_matches (init 2 2 true) two_sources one_target)
    as [[[fm uc] uj]|] eqn:E; [|by vm_compute in E].
  exists fm, uc, uj. split; [done|].
  destruct (statistics two_sources one_target fm) as [[[[a b] c] pct]|] eqn:Es.
  - exists pct.
    destruct (proj2 (statistics_sound _ _ _ _ _ _ E) a b c pct Es)
      as (_ & _ & _ & _ & _ & Hp).
    split; [|exact Hp]. vm_compute in E. injection E as <- _ _.
    vm_compute in Es. injection Es as <- <- <- _. done.
  - vm_compute in E. injection E as <- _ _. by vm_compute in Es.
Defined.

Lemma statistics_agree_with_report_witness :
  ∃ fm uc uj,
    find_matches (init 2 2 true) two_sources one_target = Some (fm, uc, uj)
    ∧ (length (generate_report_df two_sources one_target fm uc uj) + length fm)%nat
      = 3%nat.
Proof.
  destruct (find_matches (init 2 2 true) two_sources one_target)
    as [[[fm uc] uj]|] eqn:E; [|by vm_compute in E].
  exists fm, uc, uj. split; [done|].
  refine (proj2 (proj2 (statistics_agree_with_report _ _ _ _ _ _ _ _ E))).
  - apply (bool_decide_unpack _). vm_compute. exact I.
  - apply (bool_decide_unpack _). vm_compute. exact I.
Defined.

Lemma unknown_persons_match_witness :
  compare_persons (get_person_name (init 2 2 true) (CardNum 1234)) "Unknown"
  = (true, 0.8%Q).
Proof.
  apply (proj2 (unknown_persons_match (init 2 2 true) (CardNum 1234)));
    [discriminate|reflexivity].
Defined.

Lemma capitalone_rows_fit_witness :
  ∃ out,
    load_capitalone_data plain_datetime plain_numeric plain_str (init 2 2 true)
      bank_sheet = Some out
    ∧ idx <$> out = [0%nat; 2%nat]
    ∧ ascending out.
Proof.
  destruct (load_capitalone_data plain_datetime plain_numeric plain_str
              (init 2 2 true) bank_sheet) as [out|] eqn:E; [|by vm_compute in E].
  exists out. split; [done|]. split.
  - vm_compute in E. by injection E as <-.
  - exact (proj1 (capitalone_rows_fit _ _ _ _ _ _ E)).
Defined.

Lemma jobber_rows_fit_witness :
  ∃ out,
    load_jobber_data plain_numeric plain_datetime plain_str expense_sheet = Some out
    ∧ person <$> out = ["Aaron"; "Unknown"]
    ∧ ascending out.
Proof.
  destruct (load_jobber_data plain_numeric plain_datetime plain_str expense_sheet)
    as [out|] eqn:E; [|by vm_compute in E].
  exists out. split; [done|]. split.
  - vm_compute in E. by injection E as <-.
  - exact (proj1 (jobber_rows_fit _ _ _ _ _ E)).
Defined.

Lemma missing_person_column_skips_check_witness :
  ∃ cap job cands,
    load_capitalone_data plain_datetime plain_numeric plain_str (init 2 2 true)
      bank_sheet_no_card = Some cap
    ∧ load_jobber_data plain_numeric plain_datetime plain_str expense_sheet = Some job
    ∧ candidates (init 2 2 true) cap job = Some cands
    ∧ length cands = 2%nat
    ∧ ∀ c j, c ∈ cap → j ∈ job → person_compared (init 2 2 true) c j = false.
Proof.
  destruct (load_capitalone_data plain_datetime plain_numeric plain_str
              (init 2 2 true) bank_sheet_no_card) as [cap|] eqn:Ec;
    [|by vm_compute in Ec].
  destruct (load_jobber_data plain_numeric plain_datetime plain_str expense_sheet)
    as [job|] eqn:Ej; [|by vm_compute in Ej].
  destruct (candidates (init 2 2 true) cap job) as [cands|] eqn:E.
  - exists cap, job, cands. do 3 (split; [done|]). split.
    + vm_compute in Ec, Ej. injection Ec as <-. injection Ej as <-.
      vm_compute in E. by injection E as <-.
    + intros c j Hc Hj.
      exact (proj1 (missing_person_column_skips_check plain_datetime plain_numeric
               plain_datetime plain_str _ _ _ _ _ _ Ec Ej (or_introl eq_refl) E
               c j Hc Hj)).
  - vm_compute in Ec, Ej. injection Ec as <-. injection Ej as <-.
    by vm_compute in E.
Defined.

Lemma run_completed_consistent_witness :
  ∃ report pct,
    run plain_datetime plain_numeric plain_datetime plain_str (init 2 2 true)
      bank_sheet expense_sheet = Completed report (2, 0, 0, pct)
    ∧ Z.of_nat (length report) = 2
    ∧ (0 <= pct <= 100)%Q.
Proof.
  destruct (run plain_datetime plain_numeric plain_datetime plain_str
              (init 2 2 true) bank_sheet expense_sheet)
    as [| |report [[[a b] c] pct]] eqn:E; [by vm_compute in E..|].
  assert (a = 2 ∧ b = 0 ∧ c = 0) as (-> & -> & ->).
  { vm_compute in E. by injection E as _ <- <- <- _. }
  exists report, pct. split; [done|].
  destruct (run_completed_consistent _ _ _ _ _ _ _ _ _ _ _ _ E)
    as (_ & _ & _ & Hlen & _ & _ & Hp).
  split; [exact Hlen|exact Hp].
Defined.

(** C1, as the specification has it, fails: the two rows agree in date and
    amount, the comparison of their identities yields [0.0], nothing
    competes, and no candidate is generated; both records stay unmatched. *)
Lemma identity_mismatch_not_generated :
  within_tolerance (init 2 2 true) aaron_bank jerry_expense
  ∧ person_check (init 2 2 true) aaron_bank jerry_expense = (false, 0%Q)
  ∧ candidates (init 2 2 true) [aaron_bank] [jerry_expense] = Some []
  ∧ find_matches (init 2 2 true) [aaron_bank] [jerry_expense] = Some ([], ∅, ∅)
  ∧ reconcile (init 2 2 true) [aaron_bank] [jerry_expense]
    = Some [MISSING_IN_JOBBER aaron_bank; MISSING_IN_CAPITALONE jerry_expense].
Proof.
  split; [|by vm_compute]. split; [by vm_compute|]. by vm_compute.
Qed.

(** C2, as the specification has it, fails twice over.  With [check_person] on
    and a bank row whose person is ["N/A"], the comparison is skipped and
    the one match is scored 0.2·0.5 + 0.4·0.25 + 0.4·1.0 = 0.6, not
    0.3·0.5 + 0.7·0.25 = 0.325.  And a bank row whose person is
    ["Unknown"] is compared with the expense's person. *)
Lemma identity_term_defaulted :
  person_compared (init 2 2 true) anonymous_bank aaron_expense_next_day = false
  ∧ (∃ m, find_matches (init 2 2 true) [anonymous_bank] [aaron_expense_next_day]
          = Some ([m], {[0%nat]}, {[0%nat]})
          ∧ (date_score (init 2 2 true) (date_diff m) == 0.5)%Q
          ∧ (amount_score (init 2 2 true) (amount_diff m) == 0.25)%Q
          ∧ (match_quality m == 0.6)%Q
          ∧ ¬ (match_quality m == 0.3 * 0.5 + 0.7 * 0.25)%Q)
  ∧ person_compared (init 2 2 true) unknown_bank aaron_expense_next_day = true
  ∧ candidates (init 2 2 true) [unknown_bank] [aaron_expense_next_day] = Some [].
Proof.
  split; [reflexivity|]. split; [|split; by vm_compute].
  eexists. split; [by vm_compute|]. simpl. by vm_compute.
Qed.

(** C7, as the specification has it, fails on persons with surrounding
    whitespace: "Aaron " and "Aaron" are not equal without regard to
    case, so the rule of the specification scores the containment,
    [0.8], while the code strips both and scores equality, [1.0]. *)
Lemma identity_score_strips :
  Reference.identity_score "Aaron " "Aaron" = 0.8%Q
  ∧ compare_persons "Aaron " "Aaron" = (true, 1%Q).
Proof.
  split; reflexivity.
Qed.
